(** * COMPOSE collaboration core: presence roster, broadcast channels, cursor projection

    A shallow embedding of
    - [src/lib/utils/collaboration.ts] (presence roster and realtime channels), and
    - [src/lib/components/CursorIndicator.svelte] (remote cursor projection),
    followed by the properties the specification states about them.

    Conventions of the embedding.
    - A JavaScript [number] holding an integer (ids, cursor offsets, epoch
      milliseconds) is a [Z]; a pixel quantity is a rational [Q].
    - A JavaScript string is a [string]; its [length] is the number of
      characters of the Rocq string (the texts used below are ASCII).
    - [last_seen] is an ISO-8601 string in the source and is only ever
      compared as an instant ([new Date(s).getTime()], or by the database);
      it is carried as its epoch-millisecond value.
    - The storage backend and the realtime client are external: the backend
      is a record holding the tables and the failure it answers with, the
      realtime client is an explicit store of channel objects. *)

From Stdlib Require Import ZArith List String Ascii Bool Lia.
From Stdlib Require Import QArith Qminmax Lqa.
From Stdlib Require Import Sorted Permutation DecimalString.
From Stdlib Require Import DecimalPos DecimalZ.
From stdpp Require Import gmap strings.
Import ListNotations.

Local Open Scope string_scope.
Local Open Scope Z_scope.

(* ===================================================================== *)
(** * Presence roster ([fetchActiveEditors]) *)
(* ===================================================================== *)

Module Presence.

(** One row of the [users] table as selected by
    [select("id, full_name, initials, email")]. *)
Record UserRow := mkUser {
  u_id : string;
  full_name : option string;
  initials : option string;
  email : option string
}.

(** One row of [problem_collaboration]. *)
Record CollaborationRow := mkRow {
  id : Z;
  problem_id : Z;
  user_id : string;
  field_name : string;
  cursor_position : Z;
  selection_start : option Z;
  selection_end : option Z;
  last_seen : Z
}.

(** [{ ...editor, users: ... }]: the row's fields plus the profile. *)
Record CollaborationEditor := mkEditor {
  row : CollaborationRow;
  users : option UserRow
}.

(** The [{ data, error }] pair every query resolves to. *)
Record Response (A : Type) := mkResponse {
  data : option A;
  error : option string
}.
Arguments mkResponse {A} _ _.
Arguments data {A} _.
Arguments error {A} _.

(** The storage collaborator: the two tables, and the error (if any) each
    of the two queries answers with. *)
Record Backend := mkBackend {
  problem_collaboration : list CollaborationRow;
  users_table : list UserRow;
  collab_error : option string;
  users_error : option string
}.

(** [.order("last_seen", { ascending: false })]: greatest [last_seen]
    first. The database leaves the order of rows with equal [last_seen]
    open; here they keep their table order (a stable insertion sort). *)
Fixpoint insert_desc (r : CollaborationRow) (l : list CollaborationRow)
  : list CollaborationRow :=
  match l with
  | [] => [r]
  | x :: t => if last_seen r <? last_seen x then x :: insert_desc r t
              else r :: x :: t
  end.

Definition order_desc (l : list CollaborationRow) : list CollaborationRow :=
  fold_right insert_desc [] l.

(** [.eq("problem_id", problemId).gt("last_seen", threshold)]. *)
Definition active_row (problemId threshold : Z) (r : CollaborationRow) : bool :=
  (problem_id r =? problemId) && (threshold <? last_seen r).

(** The first query of [fetchActiveEditors]. *)
Definition select_collaboration (b : Backend) (problemId threshold : Z)
  : Response (list CollaborationRow) :=
  match collab_error b with
  | Some e => mkResponse None (Some e)
  | None =>
      mkResponse
        (Some (order_desc
                 (List.filter (active_row problemId threshold)
                              (problem_collaboration b))))
        None
  end.

(** [[...new Set(collaborationData.map(c => c.user_id))]]: distinct ids in
    order of first occurrence. *)
Fixpoint unique_ids (l : list string) (seen : list string) : list string :=
  match l with
  | [] => []
  | x :: t => if existsb (String.eqb x) seen then unique_ids t seen
              else x :: unique_ids t (x :: seen)
  end.

(** The second query: [from("users").select(...).in("id", userIds)]. *)
Definition select_users (b : Backend) (userIds : list string)
  : Response (list UserRow) :=
  match users_error b with
  | Some e => mkResponse None (Some e)
  | None =>
      mkResponse
        (Some (List.filter (fun u => existsb (String.eqb (u_id u)) userIds)
                           (users_table b)))
        None
  end.

(** [new Map(usersData.map(user => [user.id, user]))]: a later pair with the
    same key overwrites an earlier one. *)
Definition usersMap (usersData : list UserRow) : gmap string UserRow :=
  fold_left (fun m u => <[u_id u := u]> m) usersData ∅.

(** The accumulator of the [reduce] is a [Map<string, CollaborationEditor>],
    whose [values()] come in insertion order: an association list where
    [set] on a present key replaces the value in place and on an absent key
    appends. *)
Definition EditorMap := list (string * CollaborationEditor).

Fixpoint map_get (k : string) (acc : EditorMap) : option CollaborationEditor :=
  match acc with
  | [] => None
  | (k', v) :: t => if String.eqb k' k then Some v else map_get k t
  end.

Fixpoint map_set (k : string) (v : CollaborationEditor) (acc : EditorMap)
  : EditorMap :=
  match acc with
  | [] => [(k, v)]
  | (k', v') :: t => if String.eqb k' k then (k, v) :: t
                     else (k', v') :: map_set k v t
  end.

Definition map_values (acc : EditorMap) : list CollaborationEditor :=
  List.map snd acc.

(** [new Date(e.last_seen).getTime()]. *)
Definition getTime (e : CollaborationEditor) : Z := last_seen (row e).

(** The callback of the [reduce]. *)
Definition reduce_step (acc : EditorMap) (editor : CollaborationEditor)
  : EditorMap :=
  match map_get (user_id (row editor)) acc with
  | None => map_set (user_id (row editor)) editor acc
  | Some existing =>
      if getTime existing <? getTime editor
      then map_set (user_id (row editor)) editor acc
      else acc
  end.

Definition reduce_editors (l : list CollaborationEditor) : EditorMap :=
  fold_left reduce_step l [].

(** The success path (lines 99-123 of collaboration.ts). *)
Definition combine (collaborationData : list CollaborationRow)
    (usersData : list UserRow) : list CollaborationEditor :=
  let um := usersMap usersData in
  map_values
    (reduce_editors
       (List.map (fun r => mkEditor r (um !! user_id r)) collaborationData)).

(** [fetchActiveEditors(problemId)], run at instant [now] ([Date.now()]). *)
Definition fetchActiveEditors (b : Backend) (now : Z) (problemId : Z)
  : list CollaborationEditor :=
  let r := select_collaboration b problemId (now - 30000) in
  match error r with
  | Some _ => []
  | None =>
      match data r with
      | None => []
      | Some [] => []
      | Some collaborationData =>
          let userIds := unique_ids (List.map user_id collaborationData) [] in
          let ru := select_users b userIds in
          match error ru with
          | Some _ => List.map (fun r => mkEditor r None) collaborationData
          | None =>
              combine collaborationData
                      (match data ru with Some d => d | None => [] end)
          end
      end
  end.

(** Greatest [last_seen] first. *)
Definition desc (a b : CollaborationRow) : Prop := last_seen b <= last_seen a.

(** The rows the roster is built from: the data of the first query. *)
Definition considered_rows (b : Backend) (now problemId : Z)
  : list CollaborationRow :=
  match data (select_collaboration b problemId (now - 30000)) with
  | Some d => d
  | None => []
  end.

End Presence.

(* ===================================================================== *)
(** * Realtime channels ([broadcastFieldUpdate] and friends) *)
(* ===================================================================== *)

Module Realtime.

(** [`${problemId}`] for an integer id. *)
Definition string_of_Z (z : Z) : string := NilZero.string_of_int (Z.to_int z).

(** [`problem:${problemId}`], the channel of [subscribeToCollaboration]. *)
Definition collaboration_channel_name (problemId : Z) : string :=
  "problem:" ++ string_of_Z problemId.

(** [`problem:${problemId}:updates`], the channel of the field updates. *)
Definition updates_channel_name (problemId : Z) : string :=
  "problem:" ++ string_of_Z problemId ++ ":updates".

(** [`problem_id=eq.${problemId}`]. *)
Definition collaboration_filter (problemId : Z) : string :=
  "problem_id=eq." ++ string_of_Z problemId.

Record FieldUpdate := mkFieldUpdate {
  fu_field_name : string;
  fu_content : string;
  fu_user_id : string;
  fu_timestamp : string
}.

(** The argument of [channel.send]. *)
Record Message := mkMessage {
  msg_type : string;
  msg_event : string;
  msg_payload : FieldUpdate
}.

(** A listener registered with [channel.on(type, filter, callback)]; the
    callback is named by a handle. *)
Record Listener := mkListener {
  l_type : string;
  l_event : string;
  l_filter : string;
  l_callback : nat
}.

(** A [RealtimeChannel] object, as far as this code observes it. [state] is
    the library's state string, which the code compares as a string. *)
Record RealtimeChannel := mkChannel {
  topic : string;
  state : string;
  listeners : list Listener
}.

(** What the code does to the outside, in order. *)
Inductive Event :=
| EvCreate (c : nat) (name : string)       (* supabase.channel(name) *)
| EvOn (c : nat) (l : Listener)            (* channel.on(...) *)
| EvSubscribe (c : nat)                    (* channel.subscribe() *)
| EvRemove (c : nat)                       (* supabase.removeChannel(channel) *)
| EvCacheSet (problemId : Z) (c : nat)     (* broadcastChannels.set *)
| EvCacheDelete (problemId : Z)            (* broadcastChannels.delete *)
| EvSleep (ms : Z)                         (* setTimeout(resolve, ms) elapsed *)
| EvSend (c : nat) (m : Message)           (* channel.send(m) *)
| EvLog (level : string) (text : string).  (* console.warn / console.error *)

(** The module state: the module-level [broadcastChannels] map, the channel
    objects (by reference), the next fresh reference, and the events so far.
    Channel references are natural numbers; two channels are the same object
    exactly when their references are equal. *)
Record World := mkWorld {
  broadcastChannels : gmap Z nat;
  channels : gmap nat RealtimeChannel;
  next_ref : nat;
  trace : list Event
}.

Definition emit (e : Event) (w : World) : World :=
  mkWorld (broadcastChannels w) (channels w) (next_ref w) (trace w ++ [e]).

(** [supabase.channel(name)] for a name the client has no channel of: a
    new channel object, which the library creates in state ["closed"] with
    no listener. (A request for a name it has a channel of is answered with
    that channel; two overlapping calls meet that case, see
    [SharedClient.client_channel].) *)
Definition supabase_channel (name : string) (w : World) : World * nat :=
  let c := next_ref w in
  (emit (EvCreate c name)
     (mkWorld (broadcastChannels w)
              (<[c := mkChannel name "closed" []]> (channels w))
              (S c) (trace w)),
   c).

Definition set_state (st : string) (ch : RealtimeChannel) : RealtimeChannel :=
  mkChannel (topic ch) st (listeners ch).

Definition add_listener (l : Listener) (ch : RealtimeChannel) : RealtimeChannel :=
  mkChannel (topic ch) (state ch) (listeners ch ++ [l]).

(** [channel.subscribe()]: the library starts joining. *)
Definition channel_subscribe (c : nat) (w : World) : World :=
  emit (EvSubscribe c)
    (mkWorld (broadcastChannels w) (alter (set_state "joining") c (channels w))
             (next_ref w) (trace w)).

(** [channel.on(type, filter, callback)]. *)
Definition channel_on (c : nat) (l : Listener) (w : World) : World :=
  emit (EvOn c l)
    (mkWorld (broadcastChannels w) (alter (add_listener l) c (channels w))
             (next_ref w) (trace w)).

(** [supabase.removeChannel(channel)]: the library starts leaving; the
    promise it returns is not awaited by this code. *)
Definition supabase_removeChannel (c : nat) (w : World) : World :=
  emit (EvRemove c)
    (mkWorld (broadcastChannels w) (alter (set_state "leaving") c (channels w))
             (next_ref w) (trace w)).

Definition cache_set (problemId : Z) (c : nat) (w : World) : World :=
  emit (EvCacheSet problemId c)
    (mkWorld (<[problemId := c]> (broadcastChannels w)) (channels w)
             (next_ref w) (trace w)).

Definition cache_delete (problemId : Z) (w : World) : World :=
  emit (EvCacheDelete problemId)
    (mkWorld (delete problemId (broadcastChannels w)) (channels w)
             (next_ref w) (trace w)).

(** A state change made by the library on a server reply or a network
    failure (joining to joined, anything to closed or errored, ...). *)
Definition env_set_state (c : nat) (st : string) (w : World) : World :=
  mkWorld (broadcastChannels w) (alter (set_state st) c (channels w))
          (next_ref w) (trace w).

(** [channel?.state as string]; [None] is [undefined]. *)
Definition channel_state (w : World) (channel : option nat) : option string :=
  match channel with
  | Some c => state <$> (channels w !! c)
  | None => None
  end.

Definition state_is (s : option string) (lit : string) : bool :=
  match s with
  | Some st => String.eqb st lit
  | None => false
  end.

(** [removeBroadcastChannel(problemId)]. *)
Definition removeBroadcastChannel (problemId : Z) (w : World) : World :=
  match broadcastChannels w !! problemId with
  | Some channel => cache_delete problemId (supabase_removeChannel channel w)
  | None => w
  end.

Record BroadcastArgs := mkArgs {
  a_problemId : Z;
  a_fieldName : string;
  a_content : string;
  a_userId : string
}.

(** What the promise of [channel.send] settles to. *)
Inductive SendOutcome :=
| Status (s : string)
| Rejected (reason : string).

(** What a resumption reads from outside: the clock
    ([new Date().toISOString()]) and the outcome of the pending send. *)
Record Input := mkInput {
  now_iso : string;
  send_outcome : SendOutcome
}.

(** [broadcastFieldUpdate] is an [async] function: it runs in segments
    separated by its [await]s. A [Task] is a call suspended at one of them. *)
Inductive Task :=
| Start (a : BroadcastArgs)
| AwaitSubscribe (a : BroadcastArgs) (channel : nat)
| AwaitSettle (a : BroadcastArgs) (channel : nat)
| AwaitSend (a : BroadcastArgs) (channel : nat)
| Finished.

Definition field_update_message (a : BroadcastArgs) (i : Input) : Message :=
  mkMessage "broadcast" "field_update"
    (mkFieldUpdate (a_fieldName a) (a_content a) (a_userId a) (now_iso i)).

(** The call [channel.send({...})] up to its [await]. *)
Definition do_send (a : BroadcastArgs) (c : nat) (i : Input) (w : World)
  : World * Task :=
  (emit (EvSend c (field_update_message a i)) w, AwaitSend a c).

(** One segment of [broadcastFieldUpdate], from a resumption to the next
    [await] (or to the end). *)
Definition step (w : World) (t : Task) (i : Input) : World * Task :=
  match t with
  | Start a =>
      let channel := broadcastChannels w !! a_problemId a in
      let channelState := channel_state w channel in
      match channel with
      | None =>
          let '(w1, c) := supabase_channel (updates_channel_name (a_problemId a)) w in
          (channel_subscribe c w1, AwaitSubscribe a c)
      | Some old =>
          if state_is channelState "closed" || state_is channelState "errored"
          then
            let w0 := cache_delete (a_problemId a) (supabase_removeChannel old w) in
            let '(w1, c) := supabase_channel (updates_channel_name (a_problemId a)) w0 in
            (channel_subscribe c w1, AwaitSubscribe a c)
          else if negb (state_is channelState "joined")
                  && negb (state_is channelState "subscribed")
          then (w, AwaitSettle a old)
          else do_send a old i w
      end
  | AwaitSubscribe a c =>
      (cache_set (a_problemId a) c w, AwaitSettle a c)
  | AwaitSettle a c =>
      do_send a c i (emit (EvSleep 100) w)
  | AwaitSend a c =>
      match send_outcome i with
      | Status s =>
          if String.eqb s "ok" then (w, Finished)
          else (emit (EvLog "warn" ("Broadcast status: " ++ s)) w, Finished)
      | Rejected r =>
          (emit (EvLog "error" ("Error broadcasting field update: " ++ r)) w,
           Finished)
      end
  | Finished => (w, Finished)
  end.

Fixpoint run (n : nat) (w : World) (t : Task) (i : Input) : World * Task :=
  match n with
  | O => (w, t)
  | S n' => let '(w', t') := step w t i in run n' w' t' i
  end.

(** [broadcastFieldUpdate(problemId, fieldName, content, userId)] run to
    completion with nothing else interleaved: at most four segments. *)
Definition broadcastFieldUpdate (w : World) (a : BroadcastArgs) (i : Input)
  : World :=
  fst (run 4 w (Start a) i).

Definition field_update_listener (onUpdate : nat) : Listener :=
  mkListener "broadcast" "field_update" "" onUpdate.

(** [subscribeToFieldUpdates(problemId, onUpdate)]; synchronous. *)
Definition subscribeToFieldUpdates (problemId : Z) (onUpdate : nat) (w : World)
  : World * nat :=
  let channel := broadcastChannels w !! problemId in
  let channelState := channel_state w channel in
  match channel with
  | Some c =>
      if state_is channelState "joined" || state_is channelState "subscribed"
         || state_is channelState "joining"
      then (channel_on c (field_update_listener onUpdate) w, c)
      else if state_is channelState "closed" || state_is channelState "errored"
      then
        let w0 := cache_delete problemId (supabase_removeChannel c w) in
        let '(w1, c') := supabase_channel (updates_channel_name problemId) w0 in
        let w2 := cache_set problemId c' w1 in
        (channel_subscribe c' (channel_on c' (field_update_listener onUpdate) w2), c')
      else
        (channel_subscribe c (channel_on c (field_update_listener onUpdate) w), c)
  | None =>
      let '(w1, c') := supabase_channel (updates_channel_name problemId) w in
      let w2 := cache_set problemId c' w1 in
      (channel_subscribe c' (channel_on c' (field_update_listener onUpdate) w2), c')
  end.

(** [subscribeToCollaboration(problemId, callbacks)]: the channel is not
    cached. *)
Definition subscribeToCollaboration (problemId : Z) (onChange : nat) (w : World)
  : World * nat :=
  let '(w1, c) := supabase_channel (collaboration_channel_name problemId) w in
  (channel_subscribe c
     (channel_on c
        (mkListener "postgres_changes" "*" (collaboration_filter problemId) onChange)
        w1),
   c).

(** The channels created, and the sends made, along a trace. *)
Definition created (tr : list Event) : list nat :=
  omap (fun e => match e with EvCreate c _ => Some c | _ => None end) tr.

Definition sends (tr : list Event) : list (nat * Message) :=
  omap (fun e => match e with EvSend c m => Some (c, m) | _ => None end) tr.

Definition empty_world : World := mkWorld ∅ ∅ 0 [].

End Realtime.

(* ===================================================================== *)
(** * Cursor projection ([updateCursorPosition]) *)
(* ===================================================================== *)

Module Cursor.

Local Open Scope Q_scope.

(** [getBoundingClientRect()]. *)
Record DOMRect := mkRect {
  top : Q;
  left : Q;
  width : Q;
  height : Q
}.

(** The numbers [parseFloat] reads off the computed style; [None] is [NaN]
    (as for a [line-height] of [normal]). The computed [font-size] is always
    a pixel length. *)
Record ComputedStyle := mkStyle {
  paddingTop : option Q;
  paddingLeft : option Q;
  lineHeight : option Q;
  fontSize : Q
}.

(** The text field as the projection observes it. [offsetWidth_pre s] is
    the [offsetWidth] of an absolutely positioned [white-space: pre] element
    holding [s] in the field's font. *)
Record Textarea := mkTextarea {
  value : string;
  scrollTop : Q;
  scrollLeft : Q;
  rect : DOMRect;
  style : ComputedStyle;
  offsetWidth_pre : string -> Z
}.

Record Position := mkPosition {
  p_top : Q;
  p_left : Q
}.

(** [x || d] on the result of [parseFloat]: [NaN] and [0] are falsy. *)
Definition float_or (x : option Q) (d : Q) : Q :=
  match x with
  | Some q => if Qeq_bool q 0 then d else q
  | None => d
  end.

(** [x || 0] on a number. *)
Definition num_or0 (x : Q) : Q := if Qeq_bool x 0 then 0 else x.

(** [n || 0] on an integer. *)
Definition int_or0 (n : Z) : Z := if (n =? 0)%Z then 0%Z else n.

Definition strlen (s : string) : Z := Z.of_nat (String.length s).

(** [text.substring(0, n)]: a negative [n] counts as 0, one past the end as
    the length. *)
Definition substring0 (n : Z) (s : string) : string :=
  String.substring 0 (Z.to_nat n) s.

Definition newline : ascii := "010"%char.

(** [s.split("\n")]; never empty. *)
Fixpoint split_lines (s : string) : list string :=
  match s with
  | EmptyString => [EmptyString]
  | String c t =>
      if Ascii.eqb c newline then EmptyString :: split_lines t
      else match split_lines t with
           | h :: r => String c h :: r
           | [] => [String c EmptyString]
           end
  end.

(** [Math.min(editor.cursor_position || 0, text.length)]. *)
Definition cursorPos (cursor_position : Z) (text : string) : Z :=
  Z.min (int_or0 cursor_position) (strlen text).

(** [lines.length - 1]. *)
Definition lineNumber (textBeforeCursor : string) : Z :=
  (Z.of_nat (List.length (split_lines textBeforeCursor)) - 1)%Z.

(** [lines[lines.length - 1] || ""]. *)
Definition currentLineText (textBeforeCursor : string) : string :=
  List.last (split_lines textBeforeCursor) EmptyString.

(** [Math.min(Math.max(x, lo), hi)]. *)
Definition clamp (x lo hi : Q) : Q := Qmin (Qmax x lo) hi.

(** [parseFloat(style.lineHeight) || parseFloat(style.fontSize) * 1.2]. *)
Definition line_height (st : ComputedStyle) : Q :=
  float_or (lineHeight st) (fontSize st * (12 # 10)).

(** The position before clamping (lines 94-95). *)
Definition raw_top (ta : Textarea) (textBeforeCursor : string) : Q :=
  top (rect ta) + float_or (paddingTop (style ta)) 0
  + inject_Z (lineNumber textBeforeCursor) * line_height (style ta)
  + 2 - num_or0 (scrollTop ta).

Definition raw_left (ta : Textarea) (textBeforeCursor : string) : Q :=
  left (rect ta) + float_or (paddingLeft (style ta)) 0
  + inject_Z (offsetWidth_pre ta (currentLineText textBeforeCursor))
  - num_or0 (scrollLeft ta).

Definition maxTop (ta : Textarea) : Q :=
  top (rect ta) + height (rect ta) - num_or0 (scrollTop ta) - line_height (style ta).
Definition minTop (ta : Textarea) : Q :=
  top (rect ta) - num_or0 (scrollTop ta).
Definition maxLeft (ta : Textarea) : Q :=
  left (rect ta) + width (rect ta) - num_or0 (scrollLeft ta).
Definition minLeft (ta : Textarea) : Q :=
  left (rect ta) - num_or0 (scrollLeft ta).

(** [updateCursorPosition()]: the value assigned to [cursorPosition], given
    the bound field element and the remote editor's [cursor_position]
    ([None] when the prop is not set). The [pre-wrap] measuring element of
    lines 49-71 is built and measured, but its rectangle is never read: it
    does not enter the result. *)
Definition updateCursorPosition (fieldElement : option Textarea)
    (editor : option Z) : Position :=
  match fieldElement, editor with
  | Some textarea, Some cursor_position =>
      let text := value textarea in
      let pos := cursorPos cursor_position text in
      if (pos =? 0)%Z && (strlen text =? 0)%Z then
        mkPosition
          (top (rect textarea) + float_or (paddingTop (style textarea)) 0 + 2
           - num_or0 (scrollTop textarea))
          (left (rect textarea) + float_or (paddingLeft (style textarea)) 0
           - num_or0 (scrollLeft textarea))
      else
        let textBeforeCursor := substring0 pos text in
        mkPosition
          (clamp (raw_top textarea textBeforeCursor) (minTop textarea) (maxTop textarea))
          (clamp (raw_left textarea textBeforeCursor) (minLeft textarea) (maxLeft textarea))
  | _, _ => mkPosition 0 0
  end.

(** [project(text, cursorOffset, targetBox)] of the specification: the
    projection for a field showing [text] and a remote cursor at offset
    [cursorOffset] into the text. *)
Definition with_text (text : string) (box : Textarea) : Textarea :=
  mkTextarea text (scrollTop box) (scrollLeft box) (rect box) (style box)
             (offsetWidth_pre box).

Definition project (text : string) (cursorOffset : nat) (targetBox : Textarea)
  : Position :=
  updateCursorPosition (Some (with_text text targetBox))
                       (Some (Z.of_nat cursorOffset)).

End Cursor.

(* ===================================================================== *)
(** * Invariants and sample data used by the statements below *)
(* ===================================================================== *)

Module Inv.
Import Presence.

(** The user an editor entry belongs to. *)
Definition user (e : CollaborationEditor) : string := user_id (row e).

(** What the accumulator of the [reduce] holds once the entries [p] have
    been folded in: one binding per user seen, bound to the first entry of
    that user with the greatest [last_seen]. *)
Record reduce_inv (p : list CollaborationEditor) (acc : EditorMap) : Prop := {
  inv_nodup : List.NoDup (List.map fst acc);
  inv_absent : forall k, map_get k acc = None ->
               forall e, In e p -> user e <> k;
  inv_kept : forall k v, map_get k acc = Some v ->
             user v = k /\
             exists p1 p2, p = (p1 ++ v :: p2)%list /\
               (forall e, In e p1 -> user e = k -> getTime e < getTime v) /\
               (forall e, In e p2 -> user e = k -> getTime e <= getTime v)
}.

End Inv.

Module Sample.
Import Presence.

(** Two live rows of one user in two fields, and one stale row. *)
Definition rows : list CollaborationRow :=
  [ mkRow 1 7 "u1" "title" 3 None None 20000;
    mkRow 2 7 "u1" "body" 5 None None 25000;
    mkRow 3 7 "u2" "title" 0 None None 5000 ].

Definition profiles : list UserRow :=
  [ mkUser "u1" (Some "Ann") (Some "A") None ].

Definition backend_up : Backend := mkBackend rows profiles None None.

Definition backend_profiles_down : Backend :=
  mkBackend rows profiles None (Some "timeout").

Definition backend_down : Backend :=
  mkBackend rows profiles (Some "unreachable") None.

End Sample.

Module ChannelInv.
Import Realtime.

(** Channel references in use lie below the next fresh one. *)
Definition wf (w : World) : Prop :=
  forall c, is_Some (channels w !! c) -> (c < next_ref w)%nat.

(** Every cached channel is a live object whose topic is the updates
    channel name of the problem it is cached under. *)
Definition cache_named (w : World) : Prop :=
  forall problemId c, broadcastChannels w !! problemId = Some c ->
    exists ch, channels w !! c = Some ch /\
               topic ch = updates_channel_name problemId.

Definition world_ok (w : World) : Prop := wf w /\ cache_named w.

(** The channel a suspended call holds is an updates channel of its
    problem. *)
Definition task_ok (w : World) (t : Task) : Prop :=
  match t with
  | Start _ | Finished => True
  | AwaitSubscribe a c | AwaitSettle a c | AwaitSend a c =>
      exists ch, channels w !! c = Some ch /\
                 topic ch = updates_channel_name (a_problemId a)
  end.

(** [w'] still has every channel of [w], under the same topic. *)
Definition extends (w w' : World) : Prop :=
  forall c ch, channels w !! c = Some ch ->
    exists ch', channels w' !! c = Some ch' /\ topic ch' = topic ch.

(** A channel state in which [broadcastFieldUpdate] keeps the channel. *)
Definition usable (st : string) : Prop := st <> "closed" /\ st <> "errored".

Definition no_colon (s : string) : Prop :=
  ~ In ":"%char (list_ascii_of_string s).

(** What the last segment of [broadcastFieldUpdate] logs. *)
Definition send_log (i : Input) : list Event :=
  match send_outcome i with
  | Status s =>
      if String.eqb s "ok" then []
      else [EvLog "warn" ("Broadcast status: " ++ s)]
  | Rejected r =>
      [EvLog "error" ("Error broadcasting field update: " ++ r)]
  end.



(** Sample calls. *)
Definition args_a : BroadcastArgs := mkArgs 7 "title" "Hello" "u1".
Definition input_ok : Input := mkInput "2024-01-01T00:00:00.000Z" (Status "ok").

(** A world in which problem 7 has a cached channel that has closed. *)
Definition world_closed : World :=
  mkWorld {[ 7 := 0%nat ]}
          {[ 0%nat := mkChannel (updates_channel_name 7) "closed" [] ]}
          1 [].

End ChannelInv.

Module CursorSample.
Import Cursor.
Local Open Scope Q_scope.

(** The text [ab], a line feed, [cd]. *)
Definition two_lines : string := String "a" (String "b" (String newline "cd")).

(** A fixed-pitch font, 8 pixels a character. *)
Definition fixed_pitch (s : string) : Z := (8 * Z.of_nat (String.length s))%Z.

Definition style_20 : ComputedStyle := mkStyle (Some 10) (Some 4) (Some 20) 16.

(** A roomy field, a field one line high, and a field lower than a line. *)
Definition roomy_box : Textarea :=
  mkTextarea "" 0 0 (mkRect 0 0 500 300) style_20 fixed_pitch.

Definition one_line_box : Textarea :=
  mkTextarea "" 0 0 (mkRect 0 0 100 20) style_20 fixed_pitch.

Definition low_box : Textarea :=
  mkTextarea "" 0 0 (mkRect 0 0 100 10) style_20 fixed_pitch.

End CursorSample.

(* ===================================================================== *)
(** * Presence writes ([updateCollaborationData] and the two removals) *)
(* ===================================================================== *)

Module PresenceWrites.
Import Presence.

(** What the database answers to a write: it applied it ([new_id] is the
    id it gives a row it inserts), or it failed and left the table as it
    was. *)
Inductive WriteOutcome :=
| Applied (new_id : Z)
| Failed (e : string).

(** The conflict target [problem_id,user_id,field_name]. *)
Definition same_key (problemId : Z) (userId fieldName : string)
    (r : CollaborationRow) : bool :=
  (problem_id r =? problemId) && String.eqb (user_id r) userId
  && String.eqb (field_name r) fieldName.

Definition key_of (r : CollaborationRow) : Z * string * string :=
  (problem_id r, user_id r, field_name r).

(** [upsert(row, { onConflict: "problem_id,user_id,field_name" })]: the row
    with the same key, if any, takes the values given (it keeps its id);
    otherwise the row is inserted. *)
Fixpoint upsert (new : CollaborationRow) (table : list CollaborationRow)
  : list CollaborationRow :=
  match table with
  | [] => [new]
  | r :: t =>
      if same_key (problem_id new) (user_id new) (field_name new) r
      then mkRow (id r) (problem_id new) (user_id new) (field_name new)
                 (cursor_position new) (selection_start new)
                 (selection_end new) (last_seen new) :: t
      else r :: upsert new t
  end.

(** [updateCollaborationData(problemId, userId, fieldName, cursorPosition,
    selectionStart, selectionEnd)] run at instant [now]: the table after the
    call and what the call logs. *)
Definition updateCollaborationData (table : list CollaborationRow)
    (outcome : WriteOutcome) (now : Z) (problemId : Z) (userId fieldName : string)
    (cursorPosition : Z) (selectionStart selectionEnd : option Z)
  : list CollaborationRow * list string :=
  match outcome with
  | Applied new_id =>
      (upsert (mkRow new_id problemId userId fieldName cursorPosition
                     selectionStart selectionEnd now) table, [])
  | Failed e => (table, ["Error updating collaboration data: " ++ e])
  end.

(** [.delete().eq("problem_id", problemId).eq("user_id", userId)]. *)
Definition of_user (problemId : Z) (userId : string) (r : CollaborationRow)
  : bool :=
  (problem_id r =? problemId) && String.eqb (user_id r) userId.

(** [removeCollaborationData(problemId, userId)]; [error] is what the
    database answers. *)
Definition removeCollaborationData (table : list CollaborationRow)
    (error : option string) (problemId : Z) (userId : string)
  : list CollaborationRow * list string :=
  match error with
  | None => (List.filter (fun r => negb (of_user problemId userId r)) table, [])
  | Some e => (table, ["Error removing collaboration data: " ++ e])
  end.

(** [removeOtherFieldEntries(problemId, userId, fieldName)]: the delete has
    the further filter [.neq("field_name", fieldName)]. *)
Definition removeOtherFieldEntries (table : list CollaborationRow)
    (error : option string) (problemId : Z) (userId fieldName : string)
  : list CollaborationRow * list string :=
  match error with
  | None =>
      (List.filter
         (fun r => negb (of_user problemId userId r
                         && negb (String.eqb (field_name r) fieldName)))
         table, [])
  | Some e => (table, ["Error removing other field entries: " ++ e])
  end.

(** The row an upsert leaves under the key of [new]: the values of [new],
    under the id of the row it replaced if there was one. *)
Definition stored (new : CollaborationRow) (table : list CollaborationRow)
  : CollaborationRow :=
  match List.find (same_key (problem_id new) (user_id new) (field_name new))
                  table with
  | Some r => mkRow (id r) (problem_id new) (user_id new) (field_name new)
                    (cursor_position new) (selection_start new)
                    (selection_end new) (last_seen new)
  | None => new
  end.

(** The backend with its presence table replaced. *)
Definition with_table (b : Backend) (table : list CollaborationRow) : Backend :=
  mkBackend table (users_table b) (collab_error b) (users_error b).

(** The uniqueness constraint of the table. *)
Definition unique_keys (table : list CollaborationRow) : Prop :=
  List.NoDup (List.map key_of table).

End PresenceWrites.

(* ===================================================================== *)
(** * The editors widget and the user colour *)
(* ===================================================================== *)

Module Widget.
Import Presence.

(** [ToInt32]: the integer modulo 2^32, read as a signed 32-bit number. *)
Definition to_int32 (z : Z) : Z := (z + 2 ^ 31) mod 2 ^ 32 - 2 ^ 31.

(** [hash << 5]. *)
Definition shl5 (hash : Z) : Z := to_int32 (Z.shiftl (to_int32 hash) 5).

Definition charCode (c : ascii) : Z := Z.of_nat (nat_of_ascii c).

(** One turn of the loop: [hash = userId.charCodeAt(i) + ((hash << 5) - hash)].
    The subtraction and the addition are on numbers, not on 32-bit
    integers: only the shift wraps. *)
Definition hash_step (hash : Z) (c : ascii) : Z :=
  charCode c + (shl5 hash - hash).

Definition hash_of (userId : string) : Z :=
  fold_left hash_step (list_ascii_of_string userId) 0.

(** [hash % 360]: the remainder has the sign of [hash]. *)
Definition hue_of (userId : string) : Z := Z.rem (hash_of userId) 360.

(** [getUserColor(userId)], the same function in both components; [None]
    is a missing id. *)
Definition getUserColor (userId : option string) : string :=
  match userId with
  | None => "#000000"
  | Some EmptyString => "#000000"
  | Some s => "hsl(" ++ Realtime.string_of_Z (hue_of s) ++ ", 70%, 50%)"
  end.

(** [x || d] on a string that may be missing: [null], [undefined] and the
    empty string are falsy. *)
Definition str_or (x : option string) (d : string) : string :=
  match x with
  | Some s => if String.eqb s "" then d else s
  | None => d
  end.

(** A string that [||] skips: missing or empty. *)
Definition blank (x : option string) : Prop := x = None \/ x = Some "".

(** [editor.users?.f]. *)
Definition users_field (f : UserRow -> option string) (e : CollaborationEditor)
  : option string :=
  match users e with
  | Some u => f u
  | None => None
  end.

(** [editor.users?.full_name || editor.users?.initials ||
    editor.users?.email || fallback]. *)
Definition display_name (fallback : string) (e : CollaborationEditor) : string :=
  str_or (users_field full_name e)
    (str_or (users_field initials e)
       (str_or (users_field email e) fallback)).

(** [getUserDisplayName(editor)] of the widget. *)
Definition getUserDisplayName (e : CollaborationEditor) : string :=
  display_name "Unknown User" e.

(** The label of the cursor indicator. *)
Definition cursor_label (e : CollaborationEditor) : string :=
  display_name "User" e.

(** [arr.findIndex(p)]: the index of the first element that satisfies [p],
    or -1. *)
Fixpoint findIndex {A} (p : A -> bool) (arr : list A) : Z :=
  match arr with
  | [] => -1
  | x :: t => if p x then 0
              else let i := findIndex p t in
                   if i <? 0 then -1 else i + 1
  end.

(** [arr.filter((element, index, arr) => ...)]. *)
Fixpoint filter_from {A} (p : A -> Z -> bool) (index : Z) (l : list A) : list A :=
  match l with
  | [] => []
  | x :: t => if p x index then x :: filter_from p (index + 1) t
              else filter_from p (index + 1) t
  end.

Definition same_user (a b : CollaborationEditor) : bool :=
  String.eqb (user_id (row a)) (user_id (row b)).

(** [editor.user_id !== currentUserId]; [None] is [null]. *)
Definition is_current (currentUserId : option string) (e : CollaborationEditor)
  : bool :=
  match currentUserId with
  | Some u => String.eqb (user_id (row e)) u
  | None => false
  end.

(** The reactive [otherEditors]: the entries of other users, each user's
    first entry only. [None] is a missing [activeEditors]. *)
Definition otherEditors (activeEditors : option (list CollaborationEditor))
    (currentUserId : option string) : list CollaborationEditor :=
  let arr := match activeEditors with Some l => l | None => [] end in
  filter_from
    (fun editor index =>
       negb (is_current currentUserId editor)
       && (findIndex (fun e => same_user e editor) arr =? index))
    0 arr.

(** The entries of [l] that are not the current user's and whose user does
    not occur in [pre] or earlier in [l]. *)
Fixpoint first_entries (currentUserId : option string)
    (pre l : list CollaborationEditor) : list CollaborationEditor :=
  match l with
  | [] => []
  | x :: t =>
      if negb (is_current currentUserId x)
         && negb (existsb (fun e => same_user e x) pre)
      then x :: first_entries currentUserId (pre ++ [x]) t
      else first_entries currentUserId (pre ++ [x]) t
  end.

Definition otherEditorsCount (activeEditors : option (list CollaborationEditor))
    (currentUserId : option string) : nat :=
  List.length (otherEditors activeEditors currentUserId).

End Widget.

(* ===================================================================== *)
(** * Sequences of channel operations, and text lines *)
(* ===================================================================== *)

Module ChannelOps.
Import Realtime.

(** One use of the channel functions of the module, or a state change made
    by the library. *)
Inductive Op :=
| OpBroadcast (a : BroadcastArgs) (i : Input)
| OpSubscribeToFieldUpdates (problemId : Z) (onUpdate : nat)
| OpSubscribeToCollaboration (problemId : Z) (onChange : nat)
| OpRemoveBroadcastChannel (problemId : Z)
| OpEnv (c : nat) (st : string).

Definition apply_op (w : World) (o : Op) : World :=
  match o with
  | OpBroadcast a i => broadcastFieldUpdate w a i
  | OpSubscribeToFieldUpdates problemId onUpdate =>
      fst (subscribeToFieldUpdates problemId onUpdate w)
  | OpSubscribeToCollaboration problemId onChange =>
      fst (subscribeToCollaboration problemId onChange w)
  | OpRemoveBroadcastChannel problemId => removeBroadcastChannel problemId w
  | OpEnv c st => env_set_state c st w
  end.

Definition run_ops (ops : list Op) (w : World) : World :=
  fold_left apply_op ops w.

(** A channel state in which [subscribeToFieldUpdates] only attaches a
    listener. *)
Definition attachable (st : string) : Prop :=
  st = "joined" \/ st = "subscribed" \/ st = "joining".

(** The subscriptions made along a trace. *)
Definition subscribed (tr : list Event) : list nat :=
  omap (fun e => match e with EvSubscribe c => Some c | _ => None end) tr.

End ChannelOps.

Module Lines.
Import Cursor.

(** [lines.join("\n")]. *)
Fixpoint join_lines (lines : list string) : string :=
  match lines with
  | [] => EmptyString
  | [l] => l
  | l :: rest => l ++ String newline (join_lines rest)
  end.

(** The number of line feeds in a text. *)
Fixpoint count_newlines (s : string) : Z :=
  match s with
  | EmptyString => 0
  | String c t => (if Ascii.eqb c newline then 1 else 0) + count_newlines t
  end.

Fixpoint has_newline (s : string) : bool :=
  match s with
  | EmptyString => false
  | String c t => Ascii.eqb c newline || has_newline t
  end.

(** The field scrolled further by [dy] down and [dx] right. *)
Definition scrolled (dy dx : Q) (box : Textarea) : Textarea :=
  mkTextarea (value box) (scrollTop box + dy)%Q (scrollLeft box + dx)%Q
             (rect box) (style box) (offsetWidth_pre box).

(** The field moved on the screen by [dy] down and [dx] right. *)
Definition moved (dy dx : Q) (box : Textarea) : Textarea :=
  mkTextarea (value box) (scrollTop box) (scrollLeft box)
             (mkRect (top (rect box) + dy)%Q (left (rect box) + dx)%Q
                     (width (rect box)) (height (rect box)))
             (style box) (offsetWidth_pre box).

End Lines.

(* ===================================================================== *)
(** * Overlapping calls of [broadcastFieldUpdate] *)
(* ===================================================================== *)

Module SharedClient.
Import Realtime ChannelInv.
























End SharedClient.

(* ===================================================================== *)
(** * Properties of the presence roster *)
(* ===================================================================== *)

Section PresenceFacts.
Import Presence Inv.

(** ** The query: filter, then order by [last_seen] descending *)

Lemma insert_desc_In r l x : In x (insert_desc r l) <-> x = r \/ In x l.
Proof.
  induction l as [|y t IH]; simpl.
  - intuition.
  - destruct (last_seen r <? last_seen y); simpl; rewrite ?IH; intuition.
Qed.

Lemma order_desc_In l x : In x (order_desc l) <-> In x l.
Proof.
  induction l as [|y t IH]; simpl; [tauto|].
  rewrite insert_desc_In, IH. intuition.
Qed.

Lemma insert_desc_sorted r l :
  StronglySorted desc l -> StronglySorted desc (insert_desc r l).
Proof.
  induction 1 as [|y t Hs IH Hall]; simpl.
  - repeat constructor.
  - destruct (Z.ltb_spec (last_seen r) (last_seen y)) as [Hlt|Hge].
    + constructor; [assumption|].
      rewrite List.Forall_forall in Hall |- *. intros z Hz.
      apply insert_desc_In in Hz as [->|Hz]; [unfold desc; lia|auto].
    + constructor; [constructor; assumption|].
      constructor; [exact Hge|].
      rewrite List.Forall_forall in Hall |- *. intros z Hz.
      specialize (Hall z Hz). unfold desc in *. lia.
Qed.

Lemma order_desc_sorted l : StronglySorted desc (order_desc l).
Proof.
  induction l; simpl; [constructor|]. now apply insert_desc_sorted.
Qed.

Lemma considered_rows_In b now problemId r :
  In r (considered_rows b now problemId) <->
  collab_error b = None /\ In r (problem_collaboration b) /\
  problem_id r = problemId /\ now - 30000 < last_seen r.
Proof.
  unfold considered_rows, select_collaboration.
  destruct (collab_error b); simpl.
  - split; [tauto|]. intros [? _]. discriminate.
  - rewrite order_desc_In, filter_In. unfold active_row.
    rewrite andb_true_iff, Z.eqb_eq, Z.ltb_lt. intuition.
Qed.

Lemma considered_rows_sorted b now problemId :
  StronglySorted desc (considered_rows b now problemId).
Proof.
  unfold considered_rows, select_collaboration.
  destruct (collab_error b); simpl; [constructor|apply order_desc_sorted].
Qed.

(** ** The insertion-ordered map *)

Lemma map_get_set_eq k v acc : map_get k (map_set k v acc) = Some v.
Proof.
  induction acc as [|[k' v'] t IH]; simpl.
  - now rewrite String.eqb_refl.
  - destruct (String.eqb_spec k' k); simpl.
    + now rewrite String.eqb_refl.
    + destruct (String.eqb_spec k' k); [contradiction|exact IH].
Qed.

Lemma map_get_set_ne k k' v acc :
  k <> k' -> map_get k' (map_set k v acc) = map_get k' acc.
Proof.
  intros Hne. induction acc as [|[k0 v0] t IH]; simpl.
  - destruct (String.eqb_spec k k'); [contradiction|reflexivity].
  - destruct (String.eqb_spec k0 k) as [->|Hk]; simpl.
    + destruct (String.eqb_spec k k'); [contradiction|reflexivity].
    + now rewrite IH.
Qed.

Lemma map_set_keys_present k v acc :
  map_get k acc <> None ->
  List.map fst (map_set k v acc) = List.map fst acc.
Proof.
  induction acc as [|[k0 v0] t IH]; simpl; [congruence|].
  destruct (String.eqb_spec k0 k) as [->|Hk]; simpl; [reflexivity|].
  intros H. now rewrite IH.
Qed.

Lemma map_set_keys_absent k v acc :
  map_get k acc = None ->
  List.map fst (map_set k v acc) = (List.map fst acc ++ [k])%list.
Proof.
  induction acc as [|[k0 v0] t IH]; simpl; [reflexivity|].
  destruct (String.eqb_spec k0 k) as [->|Hk]; simpl; [discriminate|].
  intros H. now rewrite IH.
Qed.

Lemma map_get_None_keys k acc :
  map_get k acc = None <-> ~ In k (List.map fst acc).
Proof.
  induction acc as [|[k0 v0] t IH]; simpl; [tauto|].
  destruct (String.eqb_spec k0 k) as [->|Hk].
  - split; [discriminate|]. intros H. exfalso. apply H. now left.
  - rewrite IH. intuition.
Qed.

Lemma map_get_In k v acc : map_get k acc = Some v -> In (k, v) acc.
Proof.
  induction acc as [|[k0 v0] t IH]; simpl; [discriminate|].
  destruct (String.eqb_spec k0 k) as [->|Hk].
  - intros [= ->]. now left.
  - intros H. right. auto.
Qed.

Lemma In_map_get k v acc :
  List.NoDup (List.map fst acc) -> In (k, v) acc -> map_get k acc = Some v.
Proof.
  induction acc as [|[k0 v0] t IH]; simpl; [tauto|].
  intros Hnd. apply List.NoDup_cons_iff in Hnd as [Hni Hnd].
  intros [[= -> ->]|Hin].
  - now rewrite String.eqb_refl.
  - destruct (String.eqb_spec k0 k) as [->|Hk]; [|auto].
    exfalso. apply Hni. apply in_map_iff. now exists (k, v).
Qed.

(** ** The [reduce]: one entry per user, the first of the latest *)

Lemma reduce_step_inv p acc e :
  reduce_inv p acc -> reduce_inv (p ++ [e]) (reduce_step acc e).
Proof.
  intros [Hnd Habs Hkept]. unfold reduce_step.
  assert (Hext : forall k v, map_get k acc = Some v ->
            (user e = k -> getTime e <= getTime v) ->
            user v = k /\
            exists p1 p2, (p ++ [e])%list = (p1 ++ v :: p2)%list /\
              (forall x, In x p1 -> user x = k -> getTime x < getTime v) /\
              (forall x, In x p2 -> user x = k -> getTime x <= getTime v)).
  { intros k v Hg He. destruct (Hkept k v Hg) as (Hu & p1 & p2 & -> & H1 & H2).
    split; [exact Hu|]. exists p1, (p2 ++ [e])%list. split.
    - now rewrite <- app_assoc.
    - split; [exact H1|]. intros x Hx Hxu.
      apply in_app_or in Hx as [Hx|[<-|[]]]; auto. }
  assert (Hnew : forall k, user e = k ->
            (forall x, In x p -> user x = k -> getTime x < getTime e) ->
            user e = k /\
            exists p1 p2, (p ++ [e])%list = (p1 ++ e :: p2)%list /\
              (forall x, In x p1 -> user x = k -> getTime x < getTime e) /\
              (forall x, In x p2 -> user x = k -> getTime x <= getTime e)).
  { intros k Hk Hlt. split; [exact Hk|]. exists p, []. split; [reflexivity|].
    split; [exact Hlt|]. intros x []. }
  fold (user e).
  destruct (map_get (user e) acc) as [ex|] eqn:Hg.
  - destruct (Z.ltb_spec (getTime ex) (getTime e)) as [Hlt|Hge].
    + constructor.
      * rewrite map_set_keys_present; [exact Hnd|congruence].
      * intros k Hk x Hx.
        destruct (String.eqb_spec (user e) k) as [<-|Hne].
        { rewrite map_get_set_eq in Hk. discriminate. }
        rewrite map_get_set_ne in Hk by exact Hne.
        apply in_app_or in Hx as [Hx|[<-|[]]]; [eauto|exact Hne].
      * intros k v Hk.
        destruct (String.eqb_spec (user e) k) as [<-|Hne].
        { rewrite map_get_set_eq in Hk. injection Hk as <-.
          apply Hnew; [reflexivity|]. intros x Hx Hxu.
          destruct (Hkept _ _ Hg) as (_ & p1 & p2 & -> & H1 & H2).
          apply in_app_or in Hx as [Hx|[<-|Hx]].
          - specialize (H1 x Hx Hxu). lia.
          - exact Hlt.
          - specialize (H2 x Hx Hxu). lia. }
        rewrite map_get_set_ne in Hk by exact Hne.
        apply Hext; [exact Hk|]. intros Hu. contradiction.
    + constructor.
      * exact Hnd.
      * intros k Hk x Hx.
        apply in_app_or in Hx as [Hx|[<-|[]]]; [eauto|].
        intros <-. congruence.
      * intros k v Hk. apply Hext; [exact Hk|].
        intros <-. rewrite Hg in Hk. injection Hk as <-. exact Hge.
  - constructor.
    + rewrite map_set_keys_absent by exact Hg.
      eapply Permutation_NoDup; [apply Permutation_cons_append|].
      constructor; [|exact Hnd]. now apply map_get_None_keys.
    + intros k Hk x Hx.
      destruct (String.eqb_spec (user e) k) as [<-|Hne].
      { rewrite map_get_set_eq in Hk. discriminate. }
      rewrite map_get_set_ne in Hk by exact Hne.
      apply in_app_or in Hx as [Hx|[<-|[]]]; [eauto|exact Hne].
    + intros k v Hk.
      destruct (String.eqb_spec (user e) k) as [<-|Hne].
      { rewrite map_get_set_eq in Hk. injection Hk as <-.
        apply Hnew; [reflexivity|]. intros x Hx Hxu.
        exfalso. exact (Habs _ Hg x Hx Hxu). }
      rewrite map_get_set_ne in Hk by exact Hne.
      apply Hext; [exact Hk|]. intros Hu. contradiction.
Qed.

Lemma fold_reduce_inv l : forall p acc,
  reduce_inv p acc -> reduce_inv (p ++ l) (fold_left reduce_step l acc).
Proof.
  induction l as [|e l IH]; intros p acc H; simpl.
  - now rewrite app_nil_r.
  - replace (p ++ e :: l)%list with ((p ++ [e]) ++ l)%list
      by now rewrite <- app_assoc.
    apply IH. now apply reduce_step_inv.
Qed.

Lemma reduce_editors_inv l : reduce_inv l (reduce_editors l).
Proof.
  apply (fold_reduce_inv l [] []). constructor; simpl.
  - constructor.
  - intros k _ e [].
  - intros k v [=].
Qed.

(** Every user of the input has a binding. *)
Lemma reduce_editors_covers l e :
  In e l -> exists v, map_get (user e) (reduce_editors l) = Some v.
Proof.
  intros He. destruct (map_get (user e) (reduce_editors l)) as [v|] eqn:Hg.
  - now exists v.
  - exfalso. exact (inv_absent _ _ (reduce_editors_inv l) _ Hg e He eq_refl).
Qed.

(** ** The three outcomes of [fetchActiveEditors] *)

Lemma fetch_storage_failed b now problemId e :
  collab_error b = Some e -> fetchActiveEditors b now problemId = [].
Proof.
  intros H. unfold fetchActiveEditors, select_collaboration. now rewrite H.
Qed.

Lemma fetch_profiles_failed b now problemId e :
  collab_error b = None -> users_error b = Some e ->
  fetchActiveEditors b now problemId =
  List.map (fun r => mkEditor r None) (considered_rows b now problemId).
Proof.
  intros Hc Hu. unfold fetchActiveEditors, considered_rows, select_collaboration.
  rewrite Hc. cbn [error data].
  destruct (order_desc _) as [|r l]; [reflexivity|].
  unfold select_users. rewrite Hu. reflexivity.
Qed.

Lemma fetch_succeeded b now problemId :
  collab_error b = None -> users_error b = None ->
  exists usersData,
    fetchActiveEditors b now problemId =
    combine (considered_rows b now problemId) usersData.
Proof.
  intros Hc Hu. unfold fetchActiveEditors, considered_rows, select_collaboration.
  rewrite Hc. cbn [error data].
  destruct (order_desc _) as [|r l]; [now exists []|].
  unfold select_users. rewrite Hu. cbn [error data]. eauto.
Qed.

(** ** The success path keeps one entry per user *)

Lemma acc_users_are_keys p acc :
  reduce_inv p acc ->
  List.map user (map_values acc) = List.map fst acc.
Proof.
  intros H. unfold map_values. rewrite List.map_map.
  apply List.map_ext_in. intros [k v] Hin. simpl.
  apply (In_map_get _ _ _ (inv_nodup _ _ H)) in Hin.
  now destruct (inv_kept _ _ H _ _ Hin).
Qed.

Lemma combine_nodup rows usersData :
  List.NoDup (List.map user (combine rows usersData)).
Proof.
  unfold combine. erewrite acc_users_are_keys by apply reduce_editors_inv.
  apply (inv_nodup _ _ (reduce_editors_inv _)).
Qed.

Lemma combine_kept rows usersData v :
  In v (combine rows usersData) ->
  exists l1 l2, rows = (l1 ++ row v :: l2)%list /\
    (forall r, In r l1 -> user_id r = user v -> last_seen r < getTime v) /\
    (forall r, In r l2 -> user_id r = user v -> last_seen r <= getTime v).
Proof.
  unfold combine, map_values. intros Hin.
  apply in_map_iff in Hin as ([k v'] & Hv & Hin). simpl in Hv. subst v'.
  set (f := fun r => mkEditor r (usersMap usersData !! user_id r)) in *.
  pose proof (reduce_editors_inv (List.map f rows)) as HI.
  apply (In_map_get _ _ _ (inv_nodup _ _ HI)) in Hin.
  destruct (inv_kept _ _ HI _ _ Hin) as (Hu & p1 & p2 & Hsplit & H1 & H2).
  exists (List.map row p1), (List.map row p2). split.
  - assert (Hid : List.map row (List.map f rows) = rows).
    { rewrite List.map_map. simpl. apply List.map_id. }
    rewrite <- Hid, Hsplit, List.map_app. reflexivity.
  - split; intros r Hr Hur; apply in_map_iff in Hr as (x & <- & Hx).
    + apply H1; [exact Hx|]. unfold user in *. congruence.
    + apply H2; [exact Hx|]. unfold user in *. congruence.
Qed.

Lemma combine_covers rows usersData r :
  In r rows ->
  exists v, In v (combine rows usersData) /\ user v = user_id r /\
            last_seen r <= getTime v.
Proof.
  intros Hr. unfold combine, map_values.
  set (f := fun r => mkEditor r (usersMap usersData !! user_id r)) in *.
  assert (He : In (f r) (List.map f rows)) by now apply in_map.
  destruct (reduce_editors_covers _ _ He) as [v Hg].
  pose proof (reduce_editors_inv (List.map f rows)) as HI.
  destruct (inv_kept _ _ HI _ _ Hg) as (Hu & p1 & p2 & Hsplit & H1 & H2).
  exists v. split; [|split].
  - apply in_map_iff. exists (user (f r), v). split; [reflexivity|].
    now apply map_get_In.
  - exact Hu.
  - rewrite Hsplit in He. apply in_app_or in He as [Hx|[Hx|Hx]].
    + specialize (H1 _ Hx eq_refl). change (getTime (f r)) with (last_seen r) in H1. lia.
    + rewrite Hx. unfold getTime. simpl. lia.
    + exact (H2 _ Hx eq_refl).
Qed.

Lemma fetch_from_considered b now problemId e :
  In e (fetchActiveEditors b now problemId) ->
  In (row e) (considered_rows b now problemId).
Proof.
  intros He. destruct (collab_error b) as [x|] eqn:Hc.
  - rewrite (fetch_storage_failed _ _ _ _ Hc) in He. destruct He.
  - destruct (users_error b) as [y|] eqn:Hu.
    + rewrite (fetch_profiles_failed _ _ _ _ Hc Hu) in He.
      apply in_map_iff in He as (r & <- & Hr). exact Hr.
    + destruct (fetch_succeeded _ now problemId Hc Hu) as [ud Heq].
      rewrite Heq in He. destruct (combine_kept _ _ _ He) as (l1 & l2 & -> & _).
      apply in_or_app. right. now left.
Qed.

(** ** The sample backend, evaluated *)

Example fetch_sample_up :
  fetchActiveEditors Sample.backend_up 40000 7 =
  [ mkEditor (mkRow 2 7 "u1" "body" 5 None None 25000)
             (Some (mkUser "u1" (Some "Ann") (Some "A") None)) ].
Proof. vm_compute. reflexivity. Qed.

Example fetch_sample_profiles_down :
  fetchActiveEditors Sample.backend_profiles_down 40000 7 =
  [ mkEditor (mkRow 2 7 "u1" "body" 5 None None 25000) None;
    mkEditor (mkRow 1 7 "u1" "title" 3 None None 20000) None ].
Proof. reflexivity. Qed.

Example fetch_sample_down :
  fetchActiveEditors Sample.backend_down 40000 7 = [].
Proof. reflexivity. Qed.

(** ** The claims about [fetchActiveEditors] *)

(** The path on which the profile lookup succeeds (the [reduce] of lines
    105-121). The roster holds at most one entry per user; every row that
    survives the staleness filter is represented by the entry of its user,
    whose [last_seen] is at least the row's; and the entry kept for a user
    is the first row of that user, in query order, with the greatest
    [last_seen]: every earlier row of the user is strictly older (a later
    row replaces only when strictly newer), every later one is older or
    equally old (and was discarded). *)
Theorem roster_one_entry_per_user b now problemId :
  users_error b = None ->
  let roster := fetchActiveEditors b now problemId in
  let considered := considered_rows b now problemId in
  List.NoDup (List.map user roster) /\
  (forall r, In r considered ->
     exists v, In v roster /\ user v = user_id r /\ last_seen r <= getTime v) /\
  (forall v, In v roster ->
     exists l1 l2, considered = (l1 ++ row v :: l2)%list /\
       (forall r, In r l1 -> user_id r = user v -> last_seen r < getTime v) /\
       (forall r, In r l2 -> user_id r = user v -> last_seen r <= getTime v)).
Proof.
  intros Hu roster considered. subst roster considered.
  destruct (collab_error b) as [x|] eqn:Hc.
  - rewrite (fetch_storage_failed _ _ _ _ Hc).
    assert (Hnil : considered_rows b now problemId = []).
    { unfold considered_rows, select_collaboration. now rewrite Hc. }
    rewrite Hnil. simpl. split; [constructor|]. split; intros ? [].
  - destruct (fetch_succeeded _ now problemId Hc Hu) as [ud ->].
    split; [apply combine_nodup|].
    split; [intros r; apply combine_covers|intros v; apply combine_kept].
Qed.

Lemma roster_one_entry_per_user_witness :
  List.NoDup
    (List.map user (fetchActiveEditors Sample.backend_up 40000 7)).
Proof.
  exact (proj1 (roster_one_entry_per_user Sample.backend_up 40000 7 eq_refl)).
Defined.

(** C1 at the failing input. The roster is to hold at most one record per
    userId, the one with the greatest [last_seen]; when only the profile
    lookup fails, the code returns before the [reduce] and both live rows
    of user [u1] come back. *)
Lemma roster_duplicates_when_profiles_fail :
  List.map user (fetchActiveEditors Sample.backend_profiles_down 40000 7)
    = ["u1"; "u1"] /\
  ~ List.NoDup
      (List.map user (fetchActiveEditors Sample.backend_profiles_down 40000 7)).
Proof.
  split; [reflexivity|]. intros H. vm_compute in H.
  apply List.NoDup_cons_iff in H as [H _]. apply H. now left.
Qed.

(** C2. No row whose [last_seen] is 30 seconds old or older is in the
    roster, every roster entry comes from a row of the problem newer than
    that, and the rows the roster is built from, which are exactly the rows
    of the problem newer than that, come in [last_seen] descending order. *)
Theorem stale_rows_excluded b now problemId :
  let roster := fetchActiveEditors b now problemId in
  Forall (fun r => last_seen r <= now - 30000 -> ~ In r (List.map row roster))
         (problem_collaboration b) /\
  Forall (fun e => In (row e) (problem_collaboration b) /\
                   problem_id (row e) = problemId /\
                   now - 30000 < last_seen (row e)) roster /\
  Forall (fun e => In (row e) (considered_rows b now problemId)) roster /\
  StronglySorted desc (considered_rows b now problemId) /\
  (forall r, In r (considered_rows b now problemId) <->
             collab_error b = None /\ In r (problem_collaboration b) /\
             problem_id r = problemId /\ now - 30000 < last_seen r).
Proof.
  intros roster. subst roster.
  assert (Hfresh : forall e, In e (fetchActiveEditors b now problemId) ->
            In (row e) (problem_collaboration b) /\
            problem_id (row e) = problemId /\ now - 30000 < last_seen (row e)).
  { intros e He. apply fetch_from_considered in He.
    apply considered_rows_In in He. tauto. }
  split; [|split; [|split; [|split]]].
  - apply List.Forall_forall. intros r _ Hold Hin.
    apply in_map_iff in Hin as (e & <- & He).
    apply Hfresh in He. lia.
  - apply List.Forall_forall. exact Hfresh.
  - apply List.Forall_forall. intros e. apply fetch_from_considered.
  - apply considered_rows_sorted.
  - intros r. apply considered_rows_In.
Qed.

(** C8. A failed storage query gives the empty roster; a failed profile
    lookup alone gives the staleness-filtered rows, each with a null
    profile. *)
Theorem fetch_fail_soft b now problemId :
  match collab_error b, users_error b with
  | Some _, _ => fetchActiveEditors b now problemId = []
  | None, Some _ =>
      fetchActiveEditors b now problemId =
        List.map (fun r => mkEditor r None) (considered_rows b now problemId) /\
      Forall (fun e => users e = None /\ now - 30000 < last_seen (row e))
             (fetchActiveEditors b now problemId)
  | None, None => True
  end.
Proof.
  destruct (collab_error b) as [x|] eqn:Hc.
  - exact (fetch_storage_failed _ _ _ _ Hc).
  - destruct (users_error b) as [y|] eqn:Hu; [|exact I].
    rewrite (fetch_profiles_failed _ _ _ _ Hc Hu). split; [reflexivity|].
    apply List.Forall_forall. intros e He.
    apply in_map_iff in He as (r & <- & Hr). simpl. split; [reflexivity|].
    apply considered_rows_In in Hr. tauto.
Qed.

End PresenceFacts.

(* ===================================================================== *)
(** * Properties of the realtime channels *)
(* ===================================================================== *)

Section ChannelNames.
Import Realtime ChannelInv.

Lemma list_ascii_app a b :
  list_ascii_of_string (a ++ b) =
  (list_ascii_of_string a ++ list_ascii_of_string b)%list.
Proof. induction a as [|c a IH]; simpl; [reflexivity|now rewrite IH]. Qed.

Lemma uint_digits_no_colon d : no_colon (NilEmpty.string_of_uint d).
Proof.
  unfold no_colon. induction d; simpl; intros H;
    try (destruct H as [H|H]; [discriminate H|auto]); auto.
Qed.

Lemma string_of_Z_no_colon z : no_colon (string_of_Z z).
Proof.
  unfold string_of_Z, NilZero.string_of_int, NilZero.string_of_uint.
  destruct (Z.to_int z) as [d|d].
  - destruct d; try apply uint_digits_no_colon.
    unfold no_colon. simpl. intros [H|[]]. discriminate H.
  - assert (H : no_colon (match d with
                          | Decimal.Nil => "0"
                          | _ => NilEmpty.string_of_uint d
                          end)).
    { destruct d; try apply uint_digits_no_colon.
      unfold no_colon. simpl. intros [H|[]]. discriminate H. }
    unfold no_colon in *. simpl. intros [Hc|Hc]; [discriminate Hc|auto].
Qed.

Example updates_channel_name_12 : updates_channel_name 12 = "problem:12:updates".
Proof. reflexivity. Qed.

Example collaboration_channel_name_12 :
  collaboration_channel_name 12 = "problem:12".
Proof. reflexivity. Qed.

(** The two channel names of the code never coincide, whatever the ids. *)
Lemma channel_names_distinct i j :
  collaboration_channel_name i <> updates_channel_name j.
Proof.
  unfold collaboration_channel_name, updates_channel_name.
  intros H. cbv [String.append] in H. fold String.append in H.
  injection H as H. change (string_of_Z i = string_of_Z j ++ ":updates") in H.
  apply (string_of_Z_no_colon i). rewrite H, list_ascii_app.
  apply in_or_app. right. simpl. now left.
Qed.

End ChannelNames.

Section ChannelWorld.
Import Realtime ChannelInv.

(** ** Frame facts for the primitives *)

Lemma set_state_topic st ch : topic (set_state st ch) = topic ch.
Proof. reflexivity. Qed.

Lemma add_listener_topic l ch : topic (add_listener l ch) = topic ch.
Proof. reflexivity. Qed.

Lemma extends_refl w : extends w w.
Proof. intros c ch H. eauto. Qed.

Lemma extends_same w w' : channels w' = channels w -> extends w w'.
Proof. intros E c ch H. rewrite E. eauto. Qed.

Lemma extends_trans w1 w2 w3 : extends w1 w2 -> extends w2 w3 -> extends w1 w3.
Proof.
  intros H12 H23 c ch H. destruct (H12 _ _ H) as (ch2 & H2 & E2).
  destruct (H23 _ _ H2) as (ch3 & H3 & E3). exists ch3. split; congruence.
Qed.

Lemma task_ok_extends w w' t : extends w w' -> task_ok w t -> task_ok w' t.
Proof.
  intros He. destruct t as [a|a c|a c|a c|]; simpl; auto;
    intros (ch & Hc & Ht); destruct (He _ _ Hc) as (ch' & Hc' & Ht');
    exists ch'; split; congruence.
Qed.

(** A world that differs only by an [alter] that keeps topics. *)
Lemma altered_ok f c w tr :
  (forall ch, topic (f ch) = topic ch) ->
  let w' := mkWorld (broadcastChannels w) (alter f c (channels w)) (next_ref w) tr in
  (world_ok w -> world_ok w') /\ extends w w'.
Proof.
  intros Hf w'. assert (He : extends w w').
  { intros c' ch H. subst w'. simpl. rewrite lookup_alter.
    case_decide; subst; rewrite H; simpl; eauto. }
  split; [|exact He]. intros [Hwf Hn]. split.
  - intros c' Hs. subst w'. simpl in *.
    apply lookup_alter_is_Some in Hs. auto.
  - intros pid c' Hc. destruct (Hn pid c' Hc) as (ch & Hch & Ht).
    destruct (He _ _ Hch) as (ch' & Hch' & Ht'). exists ch'. split; congruence.
Qed.

Lemma emit_ok e w : (world_ok w -> world_ok (emit e w)) /\ extends w (emit e w).
Proof.
  split; [|now apply extends_same]. intros [Hwf Hn]. split; [exact Hwf|exact Hn].
Qed.

Lemma channel_subscribe_ok c w :
  (world_ok w -> world_ok (channel_subscribe c w)) /\
  extends w (channel_subscribe c w).
Proof.
  unfold channel_subscribe.
  destruct (altered_ok (set_state "joining") c w (trace w) (set_state_topic _)) as [H1 H2].
  split.
  - intros H. apply emit_ok. auto.
  - eapply extends_trans; [exact H2|apply emit_ok].
Qed.

Lemma channel_on_ok c l w :
  (world_ok w -> world_ok (channel_on c l w)) /\ extends w (channel_on c l w).
Proof.
  unfold channel_on.
  destruct (altered_ok (add_listener l) c w (trace w) (add_listener_topic _)) as [H1 H2].
  split.
  - intros H. apply emit_ok. auto.
  - eapply extends_trans; [exact H2|apply emit_ok].
Qed.

Lemma removeChannel_ok c w :
  (world_ok w -> world_ok (supabase_removeChannel c w)) /\
  extends w (supabase_removeChannel c w).
Proof.
  unfold supabase_removeChannel.
  destruct (altered_ok (set_state "leaving") c w (trace w) (set_state_topic _)) as [H1 H2].
  split.
  - intros H. apply emit_ok. auto.
  - eapply extends_trans; [exact H2|apply emit_ok].
Qed.

Lemma env_set_state_ok c st w :
  (world_ok w -> world_ok (env_set_state c st w)) /\
  extends w (env_set_state c st w).
Proof. apply (altered_ok (set_state st) c w (trace w) (set_state_topic _)). Qed.

Lemma cache_delete_ok problemId w :
  (world_ok w -> world_ok (cache_delete problemId w)) /\
  extends w (cache_delete problemId w).
Proof.
  split; [|now apply extends_same]. intros [Hwf Hn]. split; [exact Hwf|].
  intros pid c. simpl. rewrite lookup_delete_Some. intros [_ H]. exact (Hn _ _ H).
Qed.

Lemma cache_set_ok problemId c w :
  (world_ok w ->
   (exists ch, channels w !! c = Some ch /\
               topic ch = updates_channel_name problemId) ->
   world_ok (cache_set problemId c w)) /\
  extends w (cache_set problemId c w).
Proof.
  split; [|now apply extends_same]. intros [Hwf Hn] Ht. split; [exact Hwf|].
  intros pid c'. simpl. rewrite lookup_insert_Some.
  intros [[<- <-]|[_ H]]; [exact Ht|exact (Hn _ _ H)].
Qed.

(** [supabase.channel(name)] hands out a reference not in use. *)
Lemma supabase_channel_ok name w :
  wf w ->
  let w' := fst (supabase_channel name w) in
  let c := snd (supabase_channel name w) in
  c = next_ref w /\ channels w !! c = None /\
  channels w' !! c = Some (mkChannel name "closed" []) /\
  broadcastChannels w' = broadcastChannels w /\
  extends w w' /\ (cache_named w -> world_ok w').
Proof.
  intros Hwf. simpl.
  assert (Hfresh : channels w !! next_ref w = None).
  { destruct (channels w !! next_ref w) eqn:E; [|reflexivity].
    assert (next_ref w < next_ref w)%nat by (apply Hwf; eauto). lia. }
  assert (He : extends w (fst (supabase_channel name w))).
  { intros c ch H. simpl. exists ch. split; [|reflexivity].
    rewrite lookup_insert_ne; [exact H|]. intros E. rewrite <- E in H.
    rewrite Hfresh in H. discriminate H. }
  split; [reflexivity|]. split; [exact Hfresh|].
  split; [apply lookup_insert_eq|]. split; [reflexivity|].
  split; [exact He|]. intros Hn. split.
  - intros c Hs. simpl in *. apply lookup_insert_is_Some in Hs as [<-|[_ Hs]].
    + lia.
    + specialize (Hwf _ Hs). lia.
  - intros pid c Hc. destruct (Hn pid c Hc) as (ch & Hch & Ht).
    destruct (He _ _ Hch) as (ch' & Hch' & Ht'). exists ch'.
    split; [exact Hch'|congruence].
Qed.

(** ** One segment of [broadcastFieldUpdate] keeps the invariant *)

Lemma create_and_subscribe_ok a w :
  world_ok w ->
  let r := (let '(w1, c) :=
              supabase_channel (updates_channel_name (a_problemId a)) w in
            (channel_subscribe c w1, AwaitSubscribe a c)) in
  world_ok (fst r) /\ task_ok (fst r) (snd r) /\ extends w (fst r).
Proof.
  intros [Hwf Hn].
  destruct (supabase_channel_ok (updates_channel_name (a_problemId a)) w Hwf)
    as (_ & _ & Hnew & _ & He & Hok).
  cbn zeta in Hnew, He, Hok.
  change (let '(w1, c) :=
            supabase_channel (updates_channel_name (a_problemId a)) w in
          (channel_subscribe c w1, AwaitSubscribe a c))
    with (channel_subscribe (next_ref w)
            (fst (supabase_channel (updates_channel_name (a_problemId a)) w)),
          AwaitSubscribe a (next_ref w)).
  cbn [fst snd].
  set (w1 := fst (supabase_channel _ w)) in *.
  destruct (channel_subscribe_ok (next_ref w) w1) as [Hs1 Hs2].
  split; [auto|]. split.
  - destruct (Hs2 _ _ Hnew) as (ch' & Hch' & Ht'). exists ch'. split; [exact Hch'|exact Ht'].
  - eapply extends_trans; eassumption.
Qed.

Lemma step_ok w t i :
  world_ok w -> task_ok w t ->
  world_ok (fst (step w t i)) /\
  task_ok (fst (step w t i)) (snd (step w t i)) /\
  extends w (fst (step w t i)).
Proof.
  intros Hok Ht. destruct t as [a|a c|a c|a c|]; simpl in Ht.
  - unfold step.
    destruct (broadcastChannels w !! a_problemId a) as [old|] eqn:Hc.
    + destruct (state_is _ "closed" || state_is _ "errored").
      * set (w0 := cache_delete (a_problemId a) (supabase_removeChannel old w)).
        assert (H0 : world_ok w0 /\ extends w w0).
        { split.
          - apply cache_delete_ok, removeChannel_ok, Hok.
          - eapply extends_trans; [apply removeChannel_ok|apply cache_delete_ok]. }
        destruct H0 as [H0 He0].
        destruct (create_and_subscribe_ok a w0 H0) as (H1 & H2 & H3).
        split; [exact H1|]. split; [exact H2|].
        eapply extends_trans; eassumption.
      * destruct (negb _ && negb _); cbn [fst snd do_send].
        { split; [exact Hok|]. split; [|apply extends_refl].
          exact (proj2 Hok _ _ Hc). }
        { split; [now apply emit_ok|]. split; [|now apply extends_same].
          exact (proj2 Hok _ _ Hc). }
    + apply create_and_subscribe_ok, Hok.
  - cbn [step fst snd]. split; [now apply cache_set_ok|].
    split; [exact Ht|now apply extends_same].
  - cbn [step do_send fst snd]. split; [now apply emit_ok, emit_ok|].
    split; [exact Ht|now apply extends_same].
  - cbn [step]. destruct (send_outcome i) as [s|r].
    + destruct (String.eqb s "ok"); cbn [fst snd].
      * split; [exact Hok|]. split; [exact I|apply extends_refl].
      * split; [now apply emit_ok|]. split; [exact I|now apply extends_same].
    + cbn [fst snd]. split; [now apply emit_ok|].
      split; [exact I|now apply extends_same].
  - cbn [step fst snd]. split; [exact Hok|]. split; [exact I|apply extends_refl].
Qed.

Lemma run_ok n : forall w t i,
  world_ok w -> task_ok w t ->
  world_ok (fst (run n w t i)) /\
  task_ok (fst (run n w t i)) (snd (run n w t i)) /\
  extends w (fst (run n w t i)).
Proof.
  induction n as [|n IH]; intros w t i Hok Ht; simpl.
  - split; [exact Hok|]. split; [exact Ht|apply extends_refl].
  - destruct (step_ok w t i Hok Ht) as (H1 & H2 & H3).
    destruct (step w t i) as [w' t']. cbn [fst snd] in *.
    destruct (IH w' t' i H1 H2) as (H4 & H5 & H6).
    split; [exact H4|]. split; [exact H5|]. eapply extends_trans; eassumption.
Qed.

(** The invariant holds initially and every operation of the module keeps
    it. *)
Lemma empty_world_ok : world_ok empty_world.
Proof.
  split.
  - intros c [ch H]. cbn in H. rewrite lookup_empty in H. discriminate H.
  - intros pid c H. cbn in H. rewrite lookup_empty in H. discriminate H.
Qed.

Lemma broadcastFieldUpdate_ok w a i :
  world_ok w -> world_ok (broadcastFieldUpdate w a i).
Proof. intros H. apply (run_ok 4 w (Start a) i H I). Qed.

Lemma removeBroadcastChannel_ok problemId w :
  world_ok w -> world_ok (removeBroadcastChannel problemId w).
Proof.
  intros H. unfold removeBroadcastChannel.
  destruct (broadcastChannels w !! problemId); [|exact H].
  apply cache_delete_ok, removeChannel_ok, H.
Qed.

(** ** What one whole call does, path by path *)

Ltac world_unfold :=
  repeat progress
    (unfold do_send, cache_set, cache_delete, channel_subscribe,
       supabase_removeChannel, supabase_channel, emit;
     cbn [run step fst snd send_outcome now_iso
          broadcastChannels channels next_ref trace]).

Ltac world_eq :=
  world_unfold;
  try match goal with
      | |- context [String.eqb ?s "ok"] => destruct (String.eqb s "ok")
      end;
  world_unfold; rewrite <- ?app_assoc; reflexivity.

Lemma broadcast_when_absent w a i :
  broadcastChannels w !! a_problemId a = None ->
  let c := next_ref w in
  let name := updates_channel_name (a_problemId a) in
  broadcastFieldUpdate w a i =
  mkWorld (<[a_problemId a := c]> (broadcastChannels w))
          (alter (set_state "joining") c
             (<[c := mkChannel name "closed" []]> (channels w)))
          (S c)
          (trace w ++ [EvCreate c name; EvSubscribe c; EvCacheSet (a_problemId a) c;
                       EvSleep 100; EvSend c (field_update_message a i)]
                   ++ send_log i).
Proof.
  intros Hc. unfold broadcastFieldUpdate, send_log.
  destruct i as [nw [s|r]]; cbn [run step]; rewrite Hc; world_eq.
Qed.

Lemma broadcast_when_closed w a i old :
  broadcastChannels w !! a_problemId a = Some old ->
  state_is (channel_state w (Some old)) "closed"
    || state_is (channel_state w (Some old)) "errored" = true ->
  let c := next_ref w in
  let name := updates_channel_name (a_problemId a) in
  broadcastFieldUpdate w a i =
  mkWorld (<[a_problemId a := c]> (delete (a_problemId a) (broadcastChannels w)))
          (alter (set_state "joining") c
             (<[c := mkChannel name "closed" []]>
                (alter (set_state "leaving") old (channels w))))
          (S c)
          (trace w ++ [EvRemove old; EvCacheDelete (a_problemId a);
                       EvCreate c name; EvSubscribe c; EvCacheSet (a_problemId a) c;
                       EvSleep 100; EvSend c (field_update_message a i)]
                   ++ send_log i).
Proof.
  intros Hc Hst. unfold broadcastFieldUpdate, send_log.
  destruct i as [nw [s|r]]; cbn [run step]; rewrite Hc, Hst; world_eq.
Qed.

Lemma broadcast_when_joining w a i old :
  broadcastChannels w !! a_problemId a = Some old ->
  state_is (channel_state w (Some old)) "closed"
    || state_is (channel_state w (Some old)) "errored" = false ->
  negb (state_is (channel_state w (Some old)) "joined")
    && negb (state_is (channel_state w (Some old)) "subscribed") = true ->
  broadcastFieldUpdate w a i =
  mkWorld (broadcastChannels w) (channels w) (next_ref w)
          (trace w ++ [EvSleep 100; EvSend old (field_update_message a i)]
                   ++ send_log i).
Proof.
  intros Hc Hst Hj. unfold broadcastFieldUpdate, send_log.
  destruct i as [nw [s|r]]; cbn [run step]; rewrite Hc, Hst, Hj; world_eq.
Qed.

Lemma broadcast_when_joined w a i old :
  broadcastChannels w !! a_problemId a = Some old ->
  state_is (channel_state w (Some old)) "closed"
    || state_is (channel_state w (Some old)) "errored" = false ->
  negb (state_is (channel_state w (Some old)) "joined")
    && negb (state_is (channel_state w (Some old)) "subscribed") = false ->
  broadcastFieldUpdate w a i =
  mkWorld (broadcastChannels w) (channels w) (next_ref w)
          (trace w ++ [EvSend old (field_update_message a i)] ++ send_log i).
Proof.
  intros Hc Hst Hj. unfold broadcastFieldUpdate, send_log.
  destruct i as [nw [s|r]]; cbn [run step]; rewrite Hc, Hst, Hj; world_eq.
Qed.

Lemma sends_send_log i : sends (send_log i) = [].
Proof.
  unfold send_log. destruct (send_outcome i) as [s|r];
    [destruct (String.eqb s "ok")|]; reflexivity.
Qed.

Lemma created_send_log i : created (send_log i) = [].
Proof.
  unfold send_log. destruct (send_outcome i) as [s|r];
    [destruct (String.eqb s "ok")|]; reflexivity.
Qed.

Lemma sends_app (l1 l2 : list Event) : sends (l1 ++ l2) = (sends l1 ++ sends l2)%list.
Proof. apply omap_app. Qed.

Lemma created_app (l1 l2 : list Event) :
  created (l1 ++ l2) = (created l1 ++ created l2)%list.
Proof. apply omap_app. Qed.


(** ** The claims about [broadcastFieldUpdate] *)

(** C3. When [broadcastFieldUpdate] finds the cached channel of the problem
    closed or errored, it removes that channel and evicts it, creates a
    channel under a reference not in use, subscribes it, caches it, waits
    100 ms and only then sends: its one send goes to the new channel, never
    to the old one, and the new channel is the one cached afterwards. *)
Theorem closed_channel_replaced_before_send w a i old ch :
  wf w ->
  broadcastChannels w !! a_problemId a = Some old ->
  channels w !! old = Some ch ->
  state ch = "closed" \/ state ch = "errored" ->
  let w' := broadcastFieldUpdate w a i in
  let c := next_ref w in
  let name := updates_channel_name (a_problemId a) in
  c <> old /\ channels w !! c = None /\
  (exists tr,
     trace w' = (trace w ++ tr)%list /\
     tr = ([EvRemove old; EvCacheDelete (a_problemId a);
            EvCreate c name; EvSubscribe c; EvCacheSet (a_problemId a) c;
            EvSleep 100; EvSend c (field_update_message a i)]
           ++ send_log i)%list /\
     sends tr = [(c, field_update_message a i)] /\
     created tr = [c]) /\
  broadcastChannels w' !! a_problemId a = Some c /\
  channels w' !! c = Some (mkChannel name "joining" []).
Proof.
  intros Hwf Hc Hold Hst w' c name.
  assert (Hlt : (old < next_ref w)%nat) by (apply Hwf; eauto).
  assert (Hfresh : channels w !! c = None).
  { destruct (channels w !! c) eqn:E; [|reflexivity].
    assert (next_ref w < next_ref w)%nat by (apply Hwf; subst c; eauto). lia. }
  assert (Hcond : state_is (channel_state w (Some old)) "closed"
                  || state_is (channel_state w (Some old)) "errored" = true).
  { cbn [channel_state]. rewrite Hold. cbn [fmap option_fmap option_map state_is].
    destruct Hst as [-> | ->]; reflexivity. }
  subst w'. rewrite (broadcast_when_closed w a i old Hc Hcond).
  cbn [trace broadcastChannels channels]. fold c. fold name.
  split; [subst c; lia|]. split; [exact Hfresh|]. split; [|split].
  - eexists. split; [reflexivity|]. split; [reflexivity|].
    rewrite sends_app, created_app, sends_send_log, created_send_log.
    split; reflexivity.
  - apply lookup_insert_eq.
  - rewrite lookup_alter_eq, lookup_insert_eq. reflexivity.
Qed.

Lemma closed_channel_replaced_before_send_witness :
  broadcastChannels (broadcastFieldUpdate world_closed args_a input_ok) !! 7
    = Some 1%nat.
Proof.
  refine (proj1 (proj2 (proj2 (proj2
    (closed_channel_replaced_before_send world_closed args_a input_ok 0%nat
       (mkChannel (updates_channel_name 7) "closed" []) _ _ _ _))))).
  - intros c [ch H]. destruct c as [|c]; [simpl; lia|].
    cbn in H. rewrite lookup_singleton_ne in H by lia. discriminate H.
  - reflexivity.
  - reflexivity.
  - left. reflexivity.
Defined.

(** ** Which channel carries what *)

Lemma broadcast_sends_on_updates_channel w a i :
  world_ok w ->
  exists c ch tr,
    trace (broadcastFieldUpdate w a i) = (trace w ++ tr)%list /\
    sends tr = [(c, field_update_message a i)] /\
    channels (broadcastFieldUpdate w a i) !! c = Some ch /\
    topic ch = updates_channel_name (a_problemId a).
Proof.
  intros [Hwf Hn].
  destruct (broadcastChannels w !! a_problemId a) as [old|] eqn:Hc.
  - destruct (Hn _ _ Hc) as (ch & Hch & Ht).
    destruct (state_is (channel_state w (Some old)) "closed"
              || state_is (channel_state w (Some old)) "errored") eqn:Hst.
    + rewrite (broadcast_when_closed w a i old Hc Hst).
      cbn [trace channels]. eexists _, _, _. split; [reflexivity|].
      rewrite sends_app, sends_send_log. split; [reflexivity|].
      rewrite lookup_alter_eq, lookup_insert_eq. split; reflexivity.
    + destruct (negb (state_is (channel_state w (Some old)) "joined")
                && negb (state_is (channel_state w (Some old)) "subscribed"))
        eqn:Hj.
      * rewrite (broadcast_when_joining w a i old Hc Hst Hj).
        cbn [trace channels]. exists old, ch. eexists. split; [reflexivity|].
        rewrite sends_app, sends_send_log. split; [reflexivity|]. now split.
      * rewrite (broadcast_when_joined w a i old Hc Hst Hj).
        cbn [trace channels]. exists old, ch. eexists. split; [reflexivity|].
        rewrite sends_app, sends_send_log. split; [reflexivity|]. now split.
  - rewrite (broadcast_when_absent w a i Hc).
    cbn [trace channels]. eexists _, _, _. split; [reflexivity|].
    rewrite sends_app, sends_send_log. split; [reflexivity|].
    rewrite lookup_alter_eq, lookup_insert_eq. split; reflexivity.
Qed.

Lemma create_cache_listen_ok problemId l w :
  world_ok w ->
  let r := (let '(w1, c') := supabase_channel (updates_channel_name problemId) w in
            let w2 := cache_set problemId c' w1 in
            (channel_subscribe c' (channel_on c' l w2), c')) in
  world_ok (fst r) /\
  broadcastChannels (fst r) !! problemId = Some (snd r) /\
  channels (fst r) !! snd r
    = Some (mkChannel (updates_channel_name problemId) "joining" [l]).
Proof.
  intros [Hwf Hn].
  destruct (supabase_channel_ok (updates_channel_name problemId) w Hwf)
    as (_ & _ & Hnew & _ & _ & Hok).
  cbn zeta in Hnew, Hok. specialize (Hok Hn).
  change (let '(w1, c') := supabase_channel (updates_channel_name problemId) w in
          let w2 := cache_set problemId c' w1 in
          (channel_subscribe c' (channel_on c' l w2), c'))
    with (channel_subscribe (next_ref w)
            (channel_on (next_ref w) l
               (cache_set problemId (next_ref w)
                  (fst (supabase_channel (updates_channel_name problemId) w)))),
          next_ref w).
  cbn [fst snd]. split; [|split].
  - apply channel_subscribe_ok, channel_on_ok, cache_set_ok; [exact Hok|].
    eexists. split; [exact Hnew|reflexivity].
  - cbn. apply lookup_insert_eq.
  - cbn. rewrite !lookup_alter_eq, lookup_insert_eq. reflexivity.
Qed.

(** [subscribeToFieldUpdates] returns the cached updates channel of the
    problem, with a [field_update] broadcast listener attached. *)
Lemma subscribeToFieldUpdates_ok problemId onUpdate w :
  world_ok w ->
  let r := subscribeToFieldUpdates problemId onUpdate w in
  world_ok (fst r) /\
  broadcastChannels (fst r) !! problemId = Some (snd r) /\
  exists ch, channels (fst r) !! snd r = Some ch /\
             topic ch = updates_channel_name problemId /\
             In (field_update_listener onUpdate) (listeners ch).
Proof.
  intros Hok. unfold subscribeToFieldUpdates.
  assert (Hcreate : forall w0, world_ok w0 ->
    let r := (let '(w1, c') := supabase_channel (updates_channel_name problemId) w0 in
              let w2 := cache_set problemId c' w1 in
              (channel_subscribe c' (channel_on c' (field_update_listener onUpdate) w2), c')) in
    world_ok (fst r) /\
    broadcastChannels (fst r) !! problemId = Some (snd r) /\
    exists ch, channels (fst r) !! snd r = Some ch /\
               topic ch = updates_channel_name problemId /\
               In (field_update_listener onUpdate) (listeners ch)).
  { intros w0 H0.
    destruct (create_cache_listen_ok problemId (field_update_listener onUpdate) w0 H0)
      as (H1 & H2 & H3).
    split; [exact H1|]. split; [exact H2|]. eexists. split; [exact H3|].
    split; [reflexivity|]. now left. }
  destruct (broadcastChannels w !! problemId) as [c|] eqn:Hc.
  - destruct (proj2 Hok _ _ Hc) as (ch & Hch & Ht).
    destruct (state_is _ "joined" || state_is _ "subscribed" || state_is _ "joining").
    + cbn [fst snd]. split; [now apply channel_on_ok|]. split; [exact Hc|].
      exists (add_listener (field_update_listener onUpdate) ch).
      split; [cbn; now rewrite lookup_alter_eq, Hch|].
      split; [exact Ht|]. cbn. apply in_or_app. right. now left.
    + destruct (state_is _ "closed" || state_is _ "errored").
      * apply Hcreate. apply cache_delete_ok, removeChannel_ok, Hok.
      * cbn [fst snd]. split; [now apply channel_subscribe_ok, channel_on_ok|].
        split; [exact Hc|].
        exists (set_state "joining" (add_listener (field_update_listener onUpdate) ch)).
        split; [cbn; now rewrite !lookup_alter_eq, Hch|].
        split; [exact Ht|]. cbn. apply in_or_app. right. now left.
  - apply Hcreate, Hok.
Qed.

(** [subscribeToCollaboration] opens a new channel named after the problem
    alone, listening for changes of the problem's presence rows; the cache
    is not touched. *)
Lemma subscribeToCollaboration_ok problemId onChange w :
  world_ok w ->
  let r := subscribeToCollaboration problemId onChange w in
  world_ok (fst r) /\
  snd r = next_ref w /\
  broadcastChannels (fst r) = broadcastChannels w /\
  channels (fst r) !! snd r
    = Some (mkChannel (collaboration_channel_name problemId) "joining"
              [mkListener "postgres_changes" "*"
                 (collaboration_filter problemId) onChange]).
Proof.
  intros [Hwf Hn].
  destruct (supabase_channel_ok (collaboration_channel_name problemId) w Hwf)
    as (_ & _ & Hnew & _ & _ & Hok).
  cbn zeta in Hnew, Hok. specialize (Hok Hn).
  unfold subscribeToCollaboration.
  change (let '(w1, c) := supabase_channel (collaboration_channel_name problemId) w in
          (channel_subscribe c
             (channel_on c
                (mkListener "postgres_changes" "*"
                   (collaboration_filter problemId) onChange) w1), c))
    with (channel_subscribe (next_ref w)
            (channel_on (next_ref w)
               (mkListener "postgres_changes" "*"
                  (collaboration_filter problemId) onChange)
               (fst (supabase_channel (collaboration_channel_name problemId) w))),
          next_ref w).
  cbn [fst snd]. split; [|split; [|split]].
  - apply channel_subscribe_ok, channel_on_ok, Hok.
  - reflexivity.
  - reflexivity.
  - cbn. rewrite !lookup_alter_eq, lookup_insert_eq. reflexivity.
Qed.

(** C4, as the code has it. The field update is sent once, as a
    [broadcast] message with event [field_update] and payload
    [{field_name, content, user_id, timestamp}], on a channel whose name is
    [problem:{id}:updates]; [subscribeToFieldUpdates] listens for that event
    on a channel of that name; the change-notification channel is named
    [problem:{id}], which is never the name of an updates channel, and it
    is a new object that is not in the broadcast cache. *)
Theorem field_update_channel_and_envelope w a i onUpdate onChange :
  world_ok w ->
  let problemId := a_problemId a in
  (exists c ch tr,
     trace (broadcastFieldUpdate w a i) = (trace w ++ tr)%list /\
     sends tr =
       [(c, mkMessage "broadcast" "field_update"
              (mkFieldUpdate (a_fieldName a) (a_content a) (a_userId a)
                             (now_iso i)))] /\
     channels (broadcastFieldUpdate w a i) !! c = Some ch /\
     topic ch = "problem:" ++ string_of_Z problemId ++ ":updates") /\
  (let r := subscribeToFieldUpdates problemId onUpdate w in
   exists ch,
     channels (fst r) !! snd r = Some ch /\
     topic ch = "problem:" ++ string_of_Z problemId ++ ":updates" /\
     In (mkListener "broadcast" "field_update" "" onUpdate) (listeners ch)) /\
  (let r := subscribeToCollaboration problemId onChange w in
   exists ch,
     channels (fst r) !! snd r = Some ch /\
     topic ch = "problem:" ++ string_of_Z problemId /\
     (forall j, topic ch <> updates_channel_name j) /\
     (forall j, broadcastChannels (fst r) !! j <> Some (snd r))).
Proof.
  intros Hok problemId. split; [|split].
  - apply broadcast_sends_on_updates_channel, Hok.
  - destruct (subscribeToFieldUpdates_ok problemId onUpdate w Hok)
      as (_ & _ & ch & H1 & H2 & H3).
    exists ch. split; [exact H1|]. split; [exact H2|exact H3].
  - destruct (subscribeToCollaboration_ok problemId onChange w Hok)
      as (_ & Hc & Hb & Hch).
    eexists. split; [exact Hch|]. split; [reflexivity|]. split.
    + intros j. apply channel_names_distinct.
    + intros j Hj. rewrite Hb, Hc in Hj.
      destruct (proj2 Hok _ _ Hj) as (ch & Hch' & _).
      assert (next_ref w < next_ref w)%nat by (apply (proj1 Hok); eauto). lia.
Qed.

Lemma field_update_channel_and_envelope_witness :
  exists c ch tr,
    trace (broadcastFieldUpdate empty_world args_a input_ok)
      = (trace empty_world ++ tr)%list /\
    sends tr =
      [(c, mkMessage "broadcast" "field_update"
             (mkFieldUpdate "title" "Hello" "u1" "2024-01-01T00:00:00.000Z"))] /\
    channels (broadcastFieldUpdate empty_world args_a input_ok) !! c = Some ch /\
    topic ch = "problem:" ++ string_of_Z 7 ++ ":updates".
Proof.
  exact (proj1 (field_update_channel_and_envelope empty_world args_a input_ok
                  0%nat 0%nat empty_world_ok)).
Defined.

(** C4, as stated, fails: the names start with [problem:], not with
    [document:]. *)
Lemma channel_names_start_with_problem :
  updates_channel_name 7 = "problem:7:updates" /\
  updates_channel_name 7 <> "document:7:updates" /\
  collaboration_channel_name 7 = "problem:7" /\
  collaboration_channel_name 7 <> "document:7" /\
  List.map (fun e => match e with EvCreate _ name => name | _ => "" end)
    (List.filter (fun e => match e with EvCreate _ _ => true | _ => false end)
       (trace (broadcastFieldUpdate empty_world args_a input_ok)))
    = ["problem:7:updates"].
Proof.
  split; [reflexivity|]. split; [discriminate|].
  split; [reflexivity|]. split; [discriminate|]. reflexivity.
Qed.

Lemma usable_not_closed ch :
  usable (state ch) ->
  state_is (Some (state ch)) "closed" || state_is (Some (state ch)) "errored"
    = false.
Proof.
  intros [H1 H2]. cbn [state_is].
  apply String.eqb_neq in H1, H2. now rewrite H1, H2.
Qed.

End ChannelWorld.

(* ===================================================================== *)
(** * Properties of the cursor projection *)
(* ===================================================================== *)

Section CursorFacts.
Import Cursor CursorSample.
Local Open Scope Q_scope.

Lemma int_or0_id n : int_or0 n = n.
Proof. unfold int_or0. destruct (Z.eqb_spec n 0); congruence. Qed.

Lemma num_or0_eq x : num_or0 x == x.
Proof.
  unfold num_or0. destruct (Qeq_bool x 0) eqn:E; [|reflexivity].
  apply Qeq_bool_iff in E. now rewrite E.
Qed.

Lemma cursorPos_le cp text : (cursorPos cp text <= strlen text)%Z.
Proof. unfold cursorPos. lia. Qed.

Lemma substring0_length n s :
  String.length (String.substring 0 n s) = Nat.min n (String.length s).
Proof.
  revert s. induction n as [|n IH]; intros [|c s]; simpl; auto.
Qed.

Lemma substring0_all n s :
  (String.length s <= n)%nat -> String.substring 0 n s = s.
Proof.
  revert s. induction n as [|n IH]; intros [|c s]; simpl; intros H;
    try reflexivity; try lia.
  rewrite IH by lia. reflexivity.
Qed.

(** The projection reads the remote offset only through [cursorPos]. *)
Lemma projection_depends_on_cursorPos ta cp cp' :
  cursorPos cp (value ta) = cursorPos cp' (value ta) ->
  updateCursorPosition (Some ta) (Some cp) = updateCursorPosition (Some ta) (Some cp').
Proof. intros H. unfold updateCursorPosition. now rewrite H. Qed.

Lemma clamp_upper x lo hi : clamp x lo hi <= hi.
Proof. apply Q.le_min_r. Qed.

Lemma clamp_range x lo hi : lo <= hi -> lo <= clamp x lo hi <= hi.
Proof.
  intros H. unfold clamp.
  destruct (Q.max_spec x lo) as [[H1 H2]|[H1 H2]];
    destruct (Q.min_spec (Qmax x lo) hi) as [[H3 H4]|[H3 H4]];
    rewrite H4; try rewrite H2; split; try lra;
    rewrite H2 in H3; lra.
Qed.

Lemma clamp_inside x lo hi : lo <= x <= hi -> clamp x lo hi == x.
Proof.
  intros [H1 H2]. unfold clamp.
  destruct (Q.max_spec x lo) as [[H3 H4]|[H3 H4]];
    destruct (Q.min_spec (Qmax x lo) hi) as [[H5 H6]|[H5 H6]];
    rewrite H6; try rewrite H4; try lra; rewrite H4 in H5; lra.
Qed.

(** The measured branch, for a field that shows some text. *)
Lemma project_nonempty text cp box :
  text <> "" ->
  project text cp box =
  let tb := substring0 (cursorPos (Z.of_nat cp) text) text in
  let ta := with_text text box in
  mkPosition (clamp (raw_top ta tb) (minTop ta) (maxTop ta))
             (clamp (raw_left ta tb) (minLeft ta) (maxLeft ta)).
Proof.
  intros Hne. unfold project, updateCursorPosition. cbn [value with_text].
  assert (Hlen : (strlen text =? 0)%Z = false).
  { apply Z.eqb_neq. unfold strlen. destruct text; [congruence|simpl; lia]. }
  rewrite Hlen, andb_false_r. reflexivity.
Qed.

(** ** The sample fields, evaluated *)

Example split_two_lines : split_lines two_lines = ["ab"; "cd"].
Proof. reflexivity. Qed.

Example project_two_lines_roomy :
  p_top (project two_lines 4 roomy_box) == 32 /\
  p_left (project two_lines 4 roomy_box) == 12.
Proof. split; reflexivity. Qed.

Example project_past_the_end :
  project two_lines 99 roomy_box = project two_lines 5 roomy_box.
Proof. reflexivity. Qed.

(** ** The claims about the projection *)

(** C10. The offset used for measuring is [min(cursor_position, length)]:
    it never exceeds the length of the text shown, the measured prefix is
    never longer than that text, projecting an offset is projecting its
    minimum with the length, and every offset at or past the end is
    projected as the end of the text. *)
Theorem cursor_offset_clamped_to_text ta cp :
  let text := value ta in
  cursorPos cp text = Z.min cp (strlen text) /\
  (cursorPos cp text <= strlen text)%Z /\
  (String.length (substring0 (cursorPos cp text) text)
     <= String.length text)%nat /\
  updateCursorPosition (Some ta) (Some cp)
    = updateCursorPosition (Some ta) (Some (Z.min cp (strlen text))) /\
  updateCursorPosition (Some ta) (Some (Z.max cp (strlen text)))
    = updateCursorPosition (Some ta) (Some (strlen text)) /\
  substring0 (cursorPos (Z.max cp (strlen text)) text) text = text.
Proof.
  intros text. subst text.
  assert (Hpos : forall n, cursorPos n (value ta) = Z.min n (strlen (value ta))).
  { intros n. unfold cursorPos. now rewrite int_or0_id. }
  split; [apply Hpos|]. split; [apply cursorPos_le|]. split.
  { unfold substring0. rewrite substring0_length. lia. }
  split; [|split].
  - apply projection_depends_on_cursorPos. rewrite !Hpos. lia.
  - apply projection_depends_on_cursorPos. rewrite !Hpos. lia.
  - rewrite Hpos. unfold substring0, strlen. apply substring0_all. lia.
Qed.


(** The guard of the early return is [cursorPos === 0]: a negative
    [cursor_position], which is no offset into a text, misses it even on
    the empty text, and the measured branch clamps the corner. *)
Remark negative_number_on_empty_text_is_clamped :
  let p := updateCursorPosition (Some one_line_box) (Some (-1)%Z) in
  p_top p == 0 /\
  ~ p_top p == top (rect one_line_box)
               + float_or (paddingTop (style one_line_box)) 0 + 2
               - scrollTop one_line_box.
Proof.
  cbv zeta. split; [reflexivity|]. intros H. vm_compute in H. discriminate H.
Qed.

(** C5, as the code has it. For the text [ab], line feed, [cd] and offset 4
    the text before the cursor is [ab], line feed, [c]: the caret is on
    line index 1 and its horizontal position, before clamping, is the
    padded left edge plus the measured width of [c]. (The width of [cd] is
    used at offset 5.) *)
Theorem two_line_text_offset_4 box :
  let text := two_lines in
  let tb := substring0 (cursorPos 4 text) text in
  tb = String "a" (String "b" (String newline "c")) /\
  lineNumber tb = 1%Z /\
  currentLineText tb = "c" /\
  currentLineText (substring0 (cursorPos 5 text) text) = "cd" /\
  p_top (project text 4 box)
    == clamp (top (rect box) + float_or (paddingTop (style box)) 0
              + 1 * line_height (style box) + 2 - scrollTop box)
             (top (rect box) - scrollTop box)
             (top (rect box) + height (rect box) - scrollTop box
              - line_height (style box)) /\
  p_left (project text 4 box)
    == clamp (left (rect box) + float_or (paddingLeft (style box)) 0
              + inject_Z (offsetWidth_pre box "c") - scrollLeft box)
             (left (rect box) - scrollLeft box)
             (left (rect box) + width (rect box) - scrollLeft box).
Proof.
  intros text tb. subst text tb.
  split; [reflexivity|]. split; [reflexivity|]. split; [reflexivity|].
  split; [reflexivity|].
  rewrite project_nonempty by discriminate.
  cbn [p_top p_left]. unfold clamp, raw_top, raw_left, minTop, maxTop, minLeft, maxLeft.
  cbn [with_text rect style scrollTop scrollLeft offsetWidth_pre].
  change (lineNumber (substring0 (cursorPos 4 two_lines) two_lines)) with 1%Z.
  change (currentLineText (substring0 (cursorPos 4 two_lines) two_lines)) with "c".
  rewrite !num_or0_eq. split; reflexivity.
Qed.

(** C5, as stated, fails: at offset 4 the width measured is that of [c],
    8 pixels in the sample font, not that of [cd], 16 pixels. *)
Lemma offset_4_measures_c_not_cd :
  let p := project two_lines 4 roomy_box in
  let edge := left (rect roomy_box)
              + float_or (paddingLeft (style roomy_box)) 0
              - scrollLeft roomy_box in
  p_left p - edge == inject_Z (offsetWidth_pre roomy_box "c") /\
  ~ p_left p - edge == inject_Z (offsetWidth_pre roomy_box "cd").
Proof.
  cbv zeta. split; [reflexivity|]. intros H. vm_compute in H. discriminate H.
Qed.

(** C6, as the code has it. When the field shows some text, the box is at
    least one line high and its width is not negative, the projection lies
    within the box, whatever the raw position:
    top in [boxTop - scrollTop, boxTop + boxHeight - scrollTop - lineHeight]
    and left in [boxLeft - scrollLeft, boxLeft + boxWidth - scrollLeft]. *)
Theorem projection_clamped_to_box text cp box :
  text <> "" ->
  line_height (style box) <= height (rect box) ->
  0 <= width (rect box) ->
  let p := project text cp box in
  top (rect box) - scrollTop box <= p_top p /\
  p_top p <= top (rect box) + height (rect box) - scrollTop box
             - line_height (style box) /\
  left (rect box) - scrollLeft box <= p_left p /\
  p_left p <= left (rect box) + width (rect box) - scrollLeft box.
Proof.
  intros Hne Hh Hw p. subst p. rewrite project_nonempty by exact Hne.
  cbn [p_top p_left].
  set (ta := with_text text box).
  assert (Ht : minTop ta <= maxTop ta).
  { unfold minTop, maxTop, ta. cbn [with_text rect style scrollTop]. lra. }
  assert (Hl : minLeft ta <= maxLeft ta).
  { unfold minLeft, maxLeft, ta. cbn [with_text rect scrollLeft]. lra. }
  pose proof (clamp_range
                (raw_top ta (substring0 (cursorPos (Z.of_nat cp) text) text))
                _ _ Ht) as [T1 T2].
  pose proof (clamp_range
                (raw_left ta (substring0 (cursorPos (Z.of_nat cp) text) text))
                _ _ Hl) as [L1 L2].
  set (pt := clamp (raw_top _ _) _ _) in *.
  set (pl := clamp (raw_left _ _) _ _) in *.
  clearbody pt pl.
  unfold minTop, maxTop, minLeft, maxLeft, ta in T1, T2, L1, L2.
  cbn [with_text rect style scrollTop scrollLeft] in T1, T2, L1, L2.
  pose proof (num_or0_eq (scrollTop box)) as E1.
  pose proof (num_or0_eq (scrollLeft box)) as E2.
  repeat split; lra.
Qed.

Lemma projection_clamped_to_box_witness :
  p_top (project two_lines 4 roomy_box)
    <= top (rect roomy_box) + height (rect roomy_box) - scrollTop roomy_box
       - line_height (style roomy_box).
Proof.
  refine (proj1 (proj2 (projection_clamped_to_box two_lines 4 roomy_box _ _ _))).
  - discriminate.
  - vm_compute. discriminate.
  - vm_compute. discriminate.
Defined.

(** C6, as stated for every input, fails twice: the empty text is not
    clamped (in a one-line box the top, 12, exceeds the upper bound, 0), and
    in a box lower than a line the clamped top, -10, is under the lower
    bound, 0. *)
Lemma projection_outside_box :
  ~ p_top (project "" 0 one_line_box)
      <= top (rect one_line_box) + height (rect one_line_box)
         - scrollTop one_line_box - line_height (style one_line_box) /\
  ~ top (rect low_box) - scrollTop low_box
      <= p_top (project two_lines 4 low_box).
Proof.
  split; intros H; vm_compute in H; apply H; reflexivity.
Qed.

End CursorFacts.

(* ===================================================================== *)
(** * Properties of the presence writes *)
(* ===================================================================== *)

Section PresenceWriteFacts.
Import Presence Inv PresenceWrites.

Lemma same_key_spec p u f r :
  same_key p u f r = true <-> key_of r = (p, u, f).
Proof.
  unfold same_key, key_of.
  rewrite !andb_true_iff, Z.eqb_eq, !String.eqb_eq.
  split; [intros [[-> ->] ->]; reflexivity|intros [= -> -> ->]; auto].
Qed.

Lemma of_user_spec p u r :
  of_user p u r = true <-> problem_id r = p /\ user_id r = u.
Proof.
  unfold of_user. now rewrite andb_true_iff, Z.eqb_eq, String.eqb_eq.
Qed.

Lemma same_key_new new r :
  same_key (problem_id new) (user_id new) (field_name new) r = true <->
  key_of r = key_of new.
Proof. apply same_key_spec. Qed.

Lemma upsert_absent new table :
  ~ In (key_of new) (List.map key_of table) ->
  upsert new table = (table ++ [new])%list /\ stored new table = new.
Proof.
  unfold stored. induction table as [|r t IH]; simpl; intros Hni; [auto|].
  destruct (same_key _ _ _ r) eqn:E.
  - apply same_key_new in E. exfalso. apply Hni. now left.
  - destruct IH as [-> IH2]; [tauto|]. split; [reflexivity|exact IH2].
Qed.

Lemma upsert_keys new table :
  List.map key_of (upsert new table) =
  if existsb (same_key (problem_id new) (user_id new) (field_name new)) table
  then List.map key_of table
  else (List.map key_of table ++ [key_of new])%list.
Proof.
  induction table as [|r t IH]; simpl; [reflexivity|].
  destruct (same_key _ _ _ r) eqn:E; simpl.
  - apply same_key_new in E. now rewrite E.
  - rewrite IH. now destruct (existsb _ t).
Qed.

Lemma existsb_same_key new table :
  existsb (same_key (problem_id new) (user_id new) (field_name new)) table = true
  <-> In (key_of new) (List.map key_of table).
Proof.
  rewrite existsb_exists, in_map_iff. split.
  - intros (r & Hr & E). apply same_key_new in E. eauto.
  - intros (r & E & Hr). exists r. split; [exact Hr|]. now apply same_key_new.
Qed.

Lemma upsert_unique new table :
  unique_keys table -> unique_keys (upsert new table).
Proof.
  unfold unique_keys. intros H. rewrite upsert_keys.
  destruct (existsb _ table) eqn:E; [exact H|].
  eapply Permutation_NoDup; [apply Permutation_cons_append|].
  constructor; [|exact H]. rewrite <- existsb_same_key. now rewrite E.
Qed.

Lemma upsert_In new table r :
  unique_keys table ->
  (In r (upsert new table) <->
   r = stored new table \/ (In r table /\ key_of r <> key_of new)).
Proof.
  unfold unique_keys, stored.
  induction table as [|x t IH]; simpl; intros Hnd.
  - split; [intros [<-|[]]; now left|intros [->|[[] _]]; now left].
  - apply List.NoDup_cons_iff in Hnd as [Hni Hnd].
    destruct (same_key _ _ _ x) eqn:E; simpl.
    + apply same_key_new in E. split.
      * intros [<-|Hr]; [now left|]. right. split; [now right|].
        intros Hk. apply Hni. rewrite E, <- Hk. now apply in_map.
      * intros [->|[[->|Hr] Hk]]; [now left|contradiction|now right].
    + assert (Hx : key_of x <> key_of new).
      { intros Hk. apply same_key_new in Hk. congruence. }
      rewrite (IH Hnd). split.
      * intros [->|[->|[Hr Hk]]]; [right; split; [now left|exact Hx]|now left|].
        right. split; [now right|exact Hk].
      * intros [->|[[->|Hr] Hk]]; [right; now left|now left|].
        right. right. now split.
Qed.

Lemma stored_values new table :
  key_of (stored new table) = key_of new /\
  cursor_position (stored new table) = cursor_position new /\
  selection_start (stored new table) = selection_start new /\
  selection_end (stored new table) = selection_end new /\
  last_seen (stored new table) = last_seen new.
Proof. unfold stored. destruct (List.find _ table); repeat split. Qed.

Lemma upsert_length new table :
  List.length (upsert new table) =
  if existsb (same_key (problem_id new) (user_id new) (field_name new)) table
  then List.length table else S (List.length table).
Proof.
  rewrite <- (List.length_map key_of), upsert_keys.
  destruct (existsb _ table); [now rewrite List.length_map|].
  rewrite List.length_app, List.length_map. simpl. lia.
Qed.

Lemma filter_unique_key l r p u f :
  unique_keys l -> In r l -> key_of r = (p, u, f) ->
  List.filter (same_key p u f) l = [r].
Proof.
  unfold unique_keys. induction l as [|x t IH]; simpl; [tauto|].
  intros Hnd Hin Hk. apply List.NoDup_cons_iff in Hnd as [Hni Hnd].
  assert (Hnone : forall y, In y t -> key_of y = (p, u, f) ->
                  ~ In (p, u, f) (List.map key_of t) -> False).
  { intros y Hy Hky Hn. apply Hn. rewrite <- Hky. now apply in_map. }
  destruct Hin as [->|Hin].
  - assert (E : same_key p u f r = true) by now apply same_key_spec.
    rewrite E. f_equal.
    rewrite Hk in Hni.
    clear -Hni. induction t as [|y t IH]; simpl; [reflexivity|].
    destruct (same_key p u f y) eqn:Ey.
    + apply same_key_spec in Ey. exfalso. apply Hni. left. exact Ey.
    + apply IH. intros H. apply Hni. now right.
  - destruct (same_key p u f x) eqn:E.
    + apply same_key_spec in E. exfalso. apply Hni. rewrite E, <- Hk.
      now apply in_map.
    + now apply IH.
Qed.

Lemma NoDup_map_In_eq {A B} (g : A -> B) l x y :
  List.NoDup (List.map g l) -> In x l -> In y l -> g x = g y -> x = y.
Proof.
  induction l as [|z t IH]; simpl; [tauto|].
  intros Hnd. apply List.NoDup_cons_iff in Hnd as [Hni Hnd].
  intros [->|Hx] [->|Hy] E; auto.
  - exfalso. apply Hni. rewrite E. now apply in_map.
  - exfalso. apply Hni. rewrite <- E. now apply in_map.
Qed.

Lemma NoDup_map_filter {A B} (g : A -> B) (q : A -> bool) l :
  List.NoDup (List.map g l) -> List.NoDup (List.map g (List.filter q l)).
Proof.
  induction l as [|z t IH]; simpl; [auto|].
  intros Hnd. apply List.NoDup_cons_iff in Hnd as [Hni Hnd].
  destruct (q z); simpl; [|auto]. constructor; [|auto].
  intros Hin. apply Hni. apply in_map_iff in Hin as (y & E & Hy).
  apply filter_In in Hy as [Hy _]. apply in_map_iff. eauto.
Qed.

(** What an applied upsert leaves. *)
Lemma upsert_spec new table :
  unique_keys table ->
  unique_keys (upsert new table) /\
  List.filter (same_key (problem_id new) (user_id new) (field_name new))
              (upsert new table) = [stored new table] /\
  (forall r, key_of r <> key_of new ->
             (In r (upsert new table) <-> In r table)).
Proof.
  intros Hu. pose proof (upsert_unique new table Hu) as Hu'.
  split; [exact Hu'|]. split.
  - apply filter_unique_key; [exact Hu'| |apply stored_values].
    apply upsert_In; [exact Hu|now left].
  - intros r Hk. rewrite (upsert_In new table r Hu). split.
    + intros [->|[Hr _]]; [|exact Hr]. destruct Hk. apply stored_values.
    + intros Hr. right. now split.
Qed.

(** ** Properties of the three writes *)

(** X1. An applied [updateCollaborationData] keeps the key
    [(problem_id, user_id, field_name)] unique, leaves exactly one row under
    the key it wrote, carrying the cursor, the selection and the instant of
    the call, leaves every row of another key as it was, and adds a row
    only when the key was not there. *)
Theorem updateCollaborationData_upserts table new_id now p u f c ss se :
  unique_keys table ->
  let table' :=
    fst (updateCollaborationData table (Applied new_id) now p u f c ss se) in
  unique_keys table' /\
  (exists r, List.filter (same_key p u f) table' = [r] /\
             cursor_position r = c /\ selection_start r = ss /\
             selection_end r = se /\ last_seen r = now) /\
  (forall r, key_of r <> (p, u, f) -> (In r table' <-> In r table)) /\
  List.length table' =
    (if existsb (same_key p u f) table then List.length table
     else S (List.length table)).
Proof.
  intros Hu table'. subst table'. cbn [updateCollaborationData fst].
  set (new := mkRow new_id p u f c ss se now).
  destruct (upsert_spec new table Hu) as (H1 & H2 & H3).
  split; [exact H1|]. split; [|split].
  - exists (stored new table). split; [exact H2|].
    destruct (stored_values new table) as (_ & Hc & Hs & He & Hl). auto.
  - exact H3.
  - apply (upsert_length new table).
Qed.

Lemma updateCollaborationData_upserts_witness :
  unique_keys
    (fst (updateCollaborationData Sample.rows (Applied 9) 30000 7 "u1" "body"
            11 None None)).
Proof.
  refine (proj1 (updateCollaborationData_upserts Sample.rows 9 30000 7 "u1"
                   "body" 11 None None _)).
  unfold unique_keys. cbv [Sample.rows List.map key_of problem_id user_id field_name].
  repeat constructor; simpl; intuition discriminate.
Defined.

(** X2. Two applied updates of one key, one after the other, leave one row
    under the key, with the cursor and the instant of the second call; the
    second call adds no row. *)
Theorem update_twice_keeps_last table id1 id2 now1 now2 p u f c1 c2 ss1 se1 ss2 se2 :
  unique_keys table ->
  let table1 :=
    fst (updateCollaborationData table (Applied id1) now1 p u f c1 ss1 se1) in
  let table2 :=
    fst (updateCollaborationData table1 (Applied id2) now2 p u f c2 ss2 se2) in
  unique_keys table2 /\
  List.length table2 = List.length table1 /\
  (exists r, List.filter (same_key p u f) table2 = [r] /\
             cursor_position r = c2 /\ selection_start r = ss2 /\
             selection_end r = se2 /\ last_seen r = now2) /\
  (forall r, key_of r <> (p, u, f) -> (In r table2 <-> In r table)).
Proof.
  intros Hu table1 table2. subst table1 table2.
  cbn [updateCollaborationData fst].
  set (n1 := mkRow id1 p u f c1 ss1 se1 now1).
  set (n2 := mkRow id2 p u f c2 ss2 se2 now2).
  destruct (upsert_spec n1 table Hu) as (H1 & H2 & H3).
  destruct (upsert_spec n2 (upsert n1 table) H1) as (K1 & K2 & K3).
  split; [exact K1|]. split; [|split].
  - rewrite (upsert_length n2). 
    assert (E : existsb (same_key (problem_id n2) (user_id n2) (field_name n2))
                        (upsert n1 table) = true).
    { apply existsb_exists. exists (stored n1 table). split.
      - apply upsert_In; [exact Hu|now left].
      - apply same_key_spec. apply (stored_values n1 table). }
    now rewrite E.
  - exists (stored n2 (upsert n1 table)). split; [exact K2|].
    destruct (stored_values n2 (upsert n1 table)) as (_ & Hc & Hs & He & Hl). auto.
  - intros r Hk. rewrite (K3 r Hk). apply (H3 r Hk).
Qed.

Lemma update_twice_keeps_last_witness :
  List.length
    (fst (updateCollaborationData
            (fst (updateCollaborationData [] (Applied 1) 100 7 "u1" "body" 3 None None))
            (Applied 2) 200 7 "u1" "body" 4 None None))
  = 1%nat.
Proof.
  refine (eq_trans (proj1 (proj2 (update_twice_keeps_last [] 1 2 100 200 7 "u1"
                                    "body" 3 4 None None None None _))) _).
  - constructor.
  - reflexivity.
Defined.

Lemma filter_one_key (q : CollaborationRow -> bool) k l :
  unique_keys l ->
  (forall r, In r l -> q r = true -> key_of r = k) ->
  (List.length (List.filter q l) <= 1)%nat.
Proof.
  unfold unique_keys. induction l as [|x t IH]; simpl; intros Hnd Hq; [lia|].
  apply List.NoDup_cons_iff in Hnd as [Hni Hnd].
  destruct (q x) eqn:E; [|apply IH; auto].
  assert (Hnil : List.filter q t = []).
  { destruct (List.filter q t) as [|y l'] eqn:F; [reflexivity|].
    assert (Hy : In y (List.filter q t)) by (rewrite F; now left).
    apply filter_In in Hy as [Hy Hqy]. exfalso. apply Hni.
    rewrite (Hq x (or_introl eq_refl) E), <- (Hq y (or_intror Hy) Hqy).
    now apply in_map. }
  rewrite Hnil. simpl. lia.
Qed.

(** X3. An applied [removeOtherFieldEntries] deletes exactly the rows of the
    user in the problem whose field is another one: every other row stays,
    the key stays unique, and the user is left with at most one row in the
    problem, which is in the field kept. *)
Theorem removeOtherFieldEntries_keeps_field table p u f :
  unique_keys table ->
  let table' := fst (removeOtherFieldEntries table None p u f) in
  (forall r, In r table' <->
             In r table /\
             (problem_id r = p -> user_id r = u -> field_name r = f)) /\
  unique_keys table' /\
  Forall (fun r => field_name r = f) (List.filter (of_user p u) table') /\
  (List.length (List.filter (of_user p u) table') <= 1)%nat.
Proof.
  intros Hu table'. subst table'. cbn [removeOtherFieldEntries fst].
  set (q := fun r => negb (of_user p u r && negb (String.eqb (field_name r) f))).
  assert (Hq : forall r, q r = true <->
            (problem_id r = p -> user_id r = u -> field_name r = f)).
  { intros r. unfold q. rewrite negb_true_iff, andb_false_iff, negb_false_iff.
    rewrite String.eqb_eq. split.
    - intros [H|H]; [|auto]. intros Hp Hus.
      assert (of_user p u r = true) by now apply of_user_spec. congruence.
    - intros H. destruct (of_user p u r) eqn:E; [|now left].
      apply of_user_spec in E as [Hp Hus]. right. auto. }
  assert (Hin : forall r, In r (List.filter q table) <->
            In r table /\
            (problem_id r = p -> user_id r = u -> field_name r = f)).
  { intros r. now rewrite filter_In, Hq. }
  assert (Hu' : unique_keys (List.filter q table)) by now apply NoDup_map_filter.
  assert (Hf : forall r, In r (List.filter q table) -> of_user p u r = true ->
               key_of r = (p, u, f)).
  { intros r Hr Ho. apply Hin in Hr as [_ Hr]. apply of_user_spec in Ho as [Hp Hus].
    unfold key_of. now rewrite Hp, Hus, (Hr Hp Hus). }
  split; [exact Hin|]. split; [exact Hu'|]. split.
  - apply List.Forall_forall. intros r Hr. apply filter_In in Hr as [Hr Ho].
    specialize (Hf r Hr Ho). unfold key_of in Hf. congruence.
  - now apply (filter_one_key (of_user p u) (p, u, f)).
Qed.

Lemma removeOtherFieldEntries_keeps_field_witness :
  (List.length
     (List.filter (of_user 7 "u1")
        (fst (removeOtherFieldEntries Sample.rows None 7 "u1" "body"))) <= 1)%nat.
Proof.
  refine (proj2 (proj2 (proj2
    (removeOtherFieldEntries_keeps_field Sample.rows 7 "u1" "body" _)))).
  unfold unique_keys. cbv [Sample.rows List.map key_of problem_id user_id field_name].
  repeat constructor; simpl; intuition discriminate.
Defined.

(** X4. After an applied [removeCollaborationData] no row of the user in the
    problem is left and every other row is, and the roster fetched from
    that table holds no entry of the user, whatever the instant and whether
    or not the queries fail. *)
Theorem removed_user_leaves_roster b p u now :
  let table' :=
    fst (removeCollaborationData (problem_collaboration b) None p u) in
  (forall r, In r table' <->
             In r (problem_collaboration b) /\
             ~ (problem_id r = p /\ user_id r = u)) /\
  Forall (fun e => user e <> u)
         (fetchActiveEditors (with_table b table') now p).
Proof.
  intros table'. subst table'. cbn [removeCollaborationData fst].
  assert (Hin : forall r,
            In r (List.filter (fun r => negb (of_user p u r)) (problem_collaboration b))
            <-> In r (problem_collaboration b) /\
                ~ (problem_id r = p /\ user_id r = u)).
  { intros r. rewrite filter_In, negb_true_iff, <- of_user_spec.
    destruct (of_user p u r); intuition congruence. }
  split; [exact Hin|]. apply List.Forall_forall. intros e He Hue.
  apply fetch_from_considered in He. apply considered_rows_In in He.
  destruct He as (_ & Hr & Hp & _). cbn [with_table problem_collaboration] in Hr.
  apply Hin in Hr as [_ Hr]. apply Hr. split; [exact Hp|exact Hue].
Qed.

(** X5. A user who has just written a cursor position is in the roster:
    when both queries succeed, the table keys are unique and the earlier
    rows of the user in the problem are older than the write, a roster
    fetched less than 30 seconds after the write holds exactly one entry
    of the user, and it carries the field, the cursor, the selection and
    the instant of the write. *)
Theorem written_cursor_is_in_roster b new_id now now' p u f c ss se :
  collab_error b = None -> users_error b = None ->
  unique_keys (problem_collaboration b) ->
  (forall r, In r (problem_collaboration b) ->
             problem_id r = p -> user_id r = u -> last_seen r < now) ->
  now' - 30000 < now ->
  let table' :=
    fst (updateCollaborationData (problem_collaboration b) (Applied new_id)
           now p u f c ss se) in
  let roster := fetchActiveEditors (with_table b table') now' p in
  exists v,
    In v roster /\ user v = u /\ field_name (row v) = f /\
    cursor_position (row v) = c /\ selection_start (row v) = ss /\
    selection_end (row v) = se /\ last_seen (row v) = now /\
    forall v', In v' roster -> user v' = u -> v' = v.
Proof.
  intros Hc Hus Hu Hold Hfresh table' roster. subst roster table'.
  cbn [updateCollaborationData fst].
  set (new := mkRow new_id p u f c ss se now).
  set (table' := upsert new (problem_collaboration b)).
  set (b' := with_table b table').
  destruct (stored_values new (problem_collaboration b))
    as (Hk & Hsc & Hss & Hse & Hsl).
  set (r0 := stored new (problem_collaboration b)) in *.
  assert (Hr0 : In r0 table') by (apply upsert_In; [exact Hu|now left]).
  unfold key_of in Hk. cbn [new problem_id user_id field_name] in Hk.
  injection Hk as Hkp Hku Hkf.
  cbn [new cursor_position selection_start selection_end last_seen]
    in Hsc, Hss, Hse, Hsl.
  destruct (fetch_succeeded b' now' p Hc Hus) as [ud Heq]. rewrite Heq.
  assert (Hcons : In r0 (considered_rows b' now' p)).
  { apply considered_rows_In. split; [exact Hc|]. split; [exact Hr0|].
    split; [exact Hkp|lia]. }
  destruct (combine_covers _ ud r0 Hcons) as (v & Hv & Hvu & Hvt).
  assert (Hrow : row v = r0).
  { destruct (combine_kept _ _ _ Hv) as (l1 & l2 & Hsplit & _ & _).
    assert (Hvc : In (row v) (considered_rows b' now' p)).
    { rewrite Hsplit. apply in_or_app. right. now left. }
    apply considered_rows_In in Hvc as (_ & Hvin & Hvp & _).
    cbn [b' with_table problem_collaboration] in Hvin.
    apply (upsert_In new _ _ Hu) in Hvin as [E|[Hvin _]]; [exact E|].
    exfalso. unfold user in Hvu. rewrite Hku in Hvu.
    specialize (Hold _ Hvin Hvp Hvu). unfold getTime in Hvt. lia. }
  exists v. rewrite Hrow. split; [exact Hv|]. split; [now rewrite Hvu|].
  repeat (split; [assumption|]).
  intros v' Hv' Hu'. symmetry.
  apply (NoDup_map_In_eq user _ v v' (combine_nodup _ ud) Hv Hv').
  now rewrite Hvu, Hu'.
Qed.

Lemma written_cursor_is_in_roster_witness :
  exists v,
    In v (fetchActiveEditors
            (with_table Sample.backend_up
               (fst (updateCollaborationData
                       (problem_collaboration Sample.backend_up) (Applied 9)
                       30000 7 "u1" "title" 11 None None)))
            40000 7) /\
    user v = "u1" /\ field_name (row v) = "title".
Proof.
  destruct (written_cursor_is_in_roster Sample.backend_up 9 30000 40000 7 "u1"
              "title" 11 None None) as (v & H1 & H2 & H3 & _).
  - reflexivity.
  - reflexivity.
  - unfold unique_keys.
    cbv [Sample.backend_up Sample.rows problem_collaboration List.map key_of
         problem_id user_id field_name].
    repeat constructor; simpl; intuition discriminate.
  - intros r Hr _ _. simpl in Hr.
    destruct Hr as [<-|[<-|[<-|[]]]]; simpl; lia.
  - lia.
  - exists v. auto.
Defined.

End PresenceWriteFacts.

(* ===================================================================== *)
(** * Properties of the editors widget and of the user colour *)
(* ===================================================================== *)

Section WidgetFacts.
Import Presence Inv Widget.

Lemma findIndex_lower {A} (p : A -> bool) l : -1 <= findIndex p l.
Proof.
  induction l as [|x t IH]; simpl; [lia|].
  destruct (p x); [lia|]. destruct (Z.ltb_spec (findIndex p t) 0); lia.
Qed.

(** Where [findIndex] lands when the element at index [length pre] matches. *)
Lemma findIndex_at {A} (p : A -> bool) pre x post :
  p x = true ->
  (findIndex p (pre ++ x :: post) =? Z.of_nat (List.length pre))
  = negb (existsb p pre).
Proof.
  intros Hx. induction pre as [|y pre IH].
  - simpl. now rewrite Hx.
  - cbn [app findIndex existsb List.length]. destruct (p y) eqn:Ey.
    + reflexivity.
    + cbn [orb]. pose proof (findIndex_lower p (pre ++ x :: post)) as Hl.
      destruct (Z.ltb_spec (findIndex p (pre ++ x :: post)) 0) as [Hneg|Hpos].
      * assert (E : (findIndex p (pre ++ x :: post) =? Z.of_nat (List.length pre)) = false)
          by (apply Z.eqb_neq; lia).
        rewrite E in IH. rewrite <- IH. apply Z.eqb_neq. lia.
      * rewrite <- IH.
        destruct (Z.eqb_spec (findIndex p (pre ++ x :: post)) (Z.of_nat (List.length pre)));
          [apply Z.eqb_eq|apply Z.eqb_neq]; lia.
Qed.

Lemma same_user_refl x : same_user x x = true.
Proof. apply String.eqb_refl. Qed.

Lemma same_user_spec x y : same_user x y = true <-> user x = user y.
Proof. apply String.eqb_eq. Qed.

Lemma no_same_user pre x :
  existsb (fun e => same_user e x) pre = false <->
  forall y, In y pre -> user y <> user x.
Proof.
  rewrite <- not_true_iff_false, existsb_exists. split.
  - intros H y Hy E. apply H. exists y. split; [exact Hy|now apply same_user_spec].
  - intros H (y & Hy & E). apply same_user_spec in E. exact (H y Hy E).
Qed.

(** The indexed filter of the widget is the keep-the-first filter. *)
Lemma filter_from_first_entries cu l : forall pre arr,
  arr = (pre ++ l)%list ->
  filter_from
    (fun editor index =>
       negb (is_current cu editor)
       && (findIndex (fun e => same_user e editor) arr =? index))
    (Z.of_nat (List.length pre)) l
  = first_entries cu pre l.
Proof.
  induction l as [|x t IH]; intros pre arr Harr; [reflexivity|].
  cbn [filter_from first_entries]. subst arr.
  rewrite (findIndex_at (fun e => same_user e x) pre x t (same_user_refl x)).
  assert (Hnext : filter_from
            (fun editor index =>
               negb (is_current cu editor)
               && (findIndex (fun e => same_user e editor) (pre ++ x :: t) =? index))
            (Z.of_nat (List.length pre) + 1) t
          = first_entries cu (pre ++ [x]) t).
  { replace (Z.of_nat (List.length pre) + 1)
      with (Z.of_nat (List.length (pre ++ [x])))
      by (rewrite List.length_app; simpl; lia).
    apply IH. now rewrite <- app_assoc. }
  rewrite Hnext. reflexivity.
Qed.

Lemma otherEditors_first_entries arr cu :
  otherEditors (Some arr) cu = first_entries cu [] arr.
Proof. unfold otherEditors. now apply (filter_from_first_entries cu arr [] arr). Qed.

Lemma first_entries_kept cu l : forall pre e,
  In e (first_entries cu pre l) ->
  is_current cu e = false /\
  exists l1 l2, l = (l1 ++ e :: l2)%list /\
                forall y, In y (pre ++ l1) -> user y <> user e.
Proof.
  induction l as [|x t IH]; intros pre e; cbn [first_entries]; [intros []|].
  assert (Hrec : In e (first_entries cu (pre ++ [x]) t) ->
            is_current cu e = false /\
            exists l1 l2, (x :: t) = (l1 ++ e :: l2)%list /\
                          forall y, In y (pre ++ l1) -> user y <> user e).
  { intros He. destruct (IH _ _ He) as (Hc & l1 & l2 & -> & Hn).
    split; [exact Hc|]. exists (x :: l1), l2. split; [reflexivity|].
    intros y Hy. apply Hn. rewrite <- app_assoc. exact Hy. }
  destruct (negb (is_current cu x) && negb (existsb _ pre)) eqn:E; [|exact Hrec].
  intros [<-|He]; [|auto].
  apply andb_true_iff in E as [E1 E2].
  apply negb_true_iff in E1, E2. split; [exact E1|].
  exists [], t. split; [reflexivity|]. rewrite app_nil_r. now apply no_same_user.
Qed.

Lemma first_entries_covers cu l : forall pre e,
  In e l -> is_current cu e = false ->
  (exists y, In y pre /\ user y = user e) \/
  (exists e', In e' (first_entries cu pre l) /\ user e' = user e).
Proof.
  induction l as [|x t IH]; intros pre e; [intros []|].
  cbn [first_entries]. intros [->|He] Hc.
  - rewrite Hc. cbn [negb andb].
    destruct (existsb (fun e0 => same_user e0 e) pre) eqn:E; cbn [negb].
    + left. apply existsb_exists in E as (y & Hy & Ey).
      apply same_user_spec in Ey. eauto.
    + right. exists e. split; [now left|reflexivity].
  - destruct (IH (pre ++ [x])%list e He Hc) as [(y & Hy & Ey)|(e' & He' & Ee')].
    + apply in_app_or in Hy as [Hy|[Exy|[]]]; [left; eauto|]. subst y.
      destruct (negb (is_current cu x) && negb (existsb (fun e0 => same_user e0 x) pre)) eqn:E.
      * right. exists x. split; [now left|exact Ey].
      * apply andb_false_iff in E as [E|E]; apply negb_false_iff in E.
        { exfalso. unfold is_current in *. destruct cu as [c|]; [|discriminate].
          apply String.eqb_eq in E. unfold user in Ey. rewrite Ey in E.
          apply String.eqb_neq in Hc. contradiction. }
        { left. apply existsb_exists in E as (z & Hz & Ez).
          apply same_user_spec in Ez. exists z. split; [exact Hz|congruence]. }
    + right. exists e'. split; [|exact Ee'].
      destruct (negb _ && negb _); [now right|exact He'].
Qed.

Lemma first_entries_nodup cu l : forall pre,
  List.NoDup (List.map user (first_entries cu pre l)).
Proof.
  induction l as [|x t IH]; intros pre; cbn [first_entries]; [constructor|].
  destruct (negb _ && negb _); [|apply IH].
  cbn [List.map]. constructor; [|apply IH].
  intros Hin. apply in_map_iff in Hin as (e & Ee & He).
  destruct (first_entries_kept _ _ _ _ He) as (_ & l1 & l2 & _ & Hn).
  apply (Hn x); [|now rewrite Ee]. apply in_or_app. left.
  apply in_or_app. right. now left.
Qed.

Lemma is_current_spec cu e :
  is_current cu e = false <-> cu <> Some (user e).
Proof.
  unfold is_current, user. destruct cu as [c|]; [|split; [discriminate|reflexivity]].
  rewrite String.eqb_neq. split; intros H; congruence.
Qed.

(** ** The list of other editors *)

(** X6. [otherEditors] lists every other user once: no user twice, never
    the current user, each entry being the first entry of its user in
    [activeEditors], and every user of [activeEditors] other than the
    current one is listed; a missing [activeEditors] gives the empty
    list. *)
Theorem otherEditors_first_entry_per_user arr cu :
  let other := otherEditors (Some arr) cu in
  List.NoDup (List.map user other) /\
  Forall (fun e => cu <> Some (user e) /\
                   exists pre post, arr = (pre ++ e :: post)%list /\
                                    forall y, In y pre -> user y <> user e)
         other /\
  Forall (fun e => cu <> Some (user e) ->
                   exists e', In e' other /\ user e' = user e) arr /\
  otherEditors None cu = [] /\
  otherEditorsCount (Some arr) cu = List.length (List.map user other).
Proof.
  intros other. subst other. rewrite otherEditors_first_entries.
  split; [apply first_entries_nodup|]. split; [|split; [|split]].
  - apply List.Forall_forall. intros e He.
    destruct (first_entries_kept _ _ _ _ He) as (Hc & l1 & l2 & Hl & Hn).
    split; [now apply is_current_spec|]. exists l1, l2. split; [exact Hl|].
    intros y Hy. apply Hn. exact Hy.
  - apply List.Forall_forall. intros e He Hc. apply is_current_spec in Hc.
    destruct (first_entries_covers cu arr [] e He Hc) as [(y & [] & _)|H].
    exact H.
  - reflexivity.
  - unfold otherEditorsCount. now rewrite otherEditors_first_entries, List.length_map.
Qed.

Lemma sorted_after (R : CollaborationRow -> CollaborationRow -> Prop) l1 x l2 :
  StronglySorted R (l1 ++ x :: l2) -> List.Forall (R x) l2.
Proof.
  induction l1 as [|y l1 IH]; simpl; intros H.
  - now apply StronglySorted_inv in H as [_ H].
  - apply StronglySorted_inv in H as [H _]. auto.
Qed.

(** X7. Whatever the two queries answer, the widget fed with the fetched
    roster lists each other user with a live row once, and with that user's
    most recent entry of the roster: this holds on the path where the
    profile lookup failed and the roster has several entries of a user. *)
Theorem widget_lists_latest_entry_per_user b now p cu :
  let roster := fetchActiveEditors b now p in
  let other := otherEditors (Some roster) cu in
  List.NoDup (List.map user other) /\
  Forall (fun e => forall e', In e' roster -> user e' = user e ->
                              last_seen (row e') <= last_seen (row e)) other /\
  Forall (fun e => cu <> Some (user e) ->
                   exists e', In e' other /\ user e' = user e) roster.
Proof.
  intros roster other.
  destruct (otherEditors_first_entry_per_user roster cu) as (H1 & H2 & H3 & _).
  fold other in H1, H2, H3. split; [exact H1|]. split; [|exact H3].
  apply List.Forall_forall. intros e He e' He' Hu.
  rewrite List.Forall_forall in H2.
  destruct (H2 e He) as (_ & pre & post & Hsplit & Hpre).
  assert (Hpost : In e' (e :: post)).
  { rewrite Hsplit in He'. apply in_app_or in He' as [Hin|Hin]; [|exact Hin].
    exfalso. exact (Hpre e' Hin Hu). }
  destruct Hpost as [->|Hpost]; [lia|].
  subst roster.
  destruct (collab_error b) as [x|] eqn:Hc.
  { rewrite (fetch_storage_failed _ _ _ _ Hc) in Hsplit.
    destruct pre; discriminate Hsplit. }
  destruct (users_error b) as [y|] eqn:Hue.
  - rewrite (fetch_profiles_failed _ _ _ _ Hc Hue) in Hsplit.
    pose proof (considered_rows_sorted b now p) as Hs.
    assert (Hrows : considered_rows b now p
                    = (List.map row pre ++ row e :: List.map row post)%list).
    { rewrite <- (List.map_id (considered_rows b now p)).
      rewrite <- (List.map_ext _ _ (fun r => eq_refl : row (mkEditor r None) = r)).
      rewrite <- List.map_map, Hsplit, List.map_app. reflexivity. }
    rewrite Hrows in Hs. apply sorted_after in Hs.
    rewrite List.Forall_forall in Hs. apply (Hs (row e')). now apply in_map.
  - destruct (fetch_succeeded b now p Hc Hue) as [ud Heq].
    assert (E : e' = e).
    { apply (NoDup_map_In_eq user (fetchActiveEditors b now p)).
      - rewrite Heq. apply combine_nodup.
      - rewrite Hsplit. apply in_or_app. right. now right.
      - rewrite Hsplit. apply in_or_app. right. now left.
      - exact Hu. }
    rewrite E. lia.
Qed.

(** ** Names and colours *)

Lemma str_or_nonempty x d : d <> "" -> str_or x d <> "".
Proof.
  intros Hd. unfold str_or. destruct x as [s|]; [|exact Hd].
  destruct (String.eqb_spec s ""); assumption.
Qed.

Lemma str_or_value d n : n <> "" -> str_or (Some n) d = n.
Proof.
  intros Hn. unfold str_or. apply String.eqb_neq in Hn. now rewrite Hn.
Qed.

Lemma str_or_blank x d : blank x -> str_or x d = d.
Proof. intros [-> | ->]; reflexivity. Qed.

Lemma blank_dec x : blank x \/ exists n, x = Some n /\ n <> "".
Proof.
  destruct x as [n|]; [|left; now left].
  destruct (String.eqb_spec n "") as [-> | Hn]; [left; now right|right; eauto].
Qed.

Lemma blank_value x n : blank x -> x = Some n -> n <> "" -> False.
Proof. intros [-> | ->] [= <-] Hn; now apply Hn. Qed.

(** X8. The name shown for an editor is never empty. It is the full name
    when that is not empty; otherwise the initials when they are not
    empty; otherwise the e-mail when it is not empty; and when all three
    are missing or empty, or the profile itself is missing, the widget
    says [Unknown User] and the cursor label [User]. So the widget and
    the label show the same name exactly when one of the three is not
    empty. *)
Theorem display_name_priority e :
  getUserDisplayName e <> "" /\ cursor_label e <> "" /\
  (forall n, users_field full_name e = Some n -> n <> "" ->
     getUserDisplayName e = n /\ cursor_label e = n) /\
  (forall n, blank (users_field full_name e) ->
     users_field initials e = Some n -> n <> "" ->
     getUserDisplayName e = n /\ cursor_label e = n) /\
  (forall n, blank (users_field full_name e) ->
     blank (users_field initials e) ->
     users_field email e = Some n -> n <> "" ->
     getUserDisplayName e = n /\ cursor_label e = n) /\
  (blank (users_field full_name e) -> blank (users_field initials e) ->
   blank (users_field email e) ->
   getUserDisplayName e = "Unknown User" /\ cursor_label e = "User") /\
  (users e = None ->
   getUserDisplayName e = "Unknown User" /\ cursor_label e = "User") /\
  (getUserDisplayName e = cursor_label e <->
   ~ (blank (users_field full_name e) /\ blank (users_field initials e) /\
      blank (users_field email e))).
Proof.
  unfold getUserDisplayName, cursor_label, display_name.
  assert (H1 : forall n, users_field full_name e = Some n -> n <> "" ->
            forall d, str_or (users_field full_name e) d = n).
  { intros n -> Hn d. now apply str_or_value. }
  assert (H2 : forall n, blank (users_field full_name e) ->
            users_field initials e = Some n -> n <> "" ->
            forall d, str_or (users_field full_name e)
                        (str_or (users_field initials e) d) = n).
  { intros n Hf -> Hn d. rewrite (str_or_blank _ _ Hf). now apply str_or_value. }
  assert (H3 : forall n, blank (users_field full_name e) ->
            blank (users_field initials e) ->
            users_field email e = Some n -> n <> "" ->
            forall d, str_or (users_field full_name e)
                        (str_or (users_field initials e)
                           (str_or (users_field email e) d)) = n).
  { intros n Hf Hi -> Hn d.
    rewrite (str_or_blank _ _ Hf), (str_or_blank _ _ Hi).
    now apply str_or_value. }
  assert (H4 : blank (users_field full_name e) ->
            blank (users_field initials e) -> blank (users_field email e) ->
            forall d, str_or (users_field full_name e)
                        (str_or (users_field initials e)
                           (str_or (users_field email e) d)) = d).
  { intros Hf Hi He d.
    now rewrite (str_or_blank _ _ Hf), (str_or_blank _ _ Hi),
                (str_or_blank _ _ He). }
  split; [repeat apply str_or_nonempty; discriminate|].
  split; [repeat apply str_or_nonempty; discriminate|].
  split; [intros n Hf Hn; now rewrite !(H1 n Hf Hn)|].
  split; [intros n Hf Hi Hn; now rewrite !(H2 n Hf Hi Hn)|].
  split; [intros n Hf Hi He Hn; now rewrite !(H3 n Hf Hi He Hn)|].
  split; [intros Hf Hi He; now rewrite !(H4 Hf Hi He)|].
  split.
  { intros Hu.
    assert (Hb : forall f, blank (users_field f e))
      by (intros f; unfold users_field; rewrite Hu; now left).
    now rewrite !(H4 (Hb _) (Hb _) (Hb _)). }
  split.
  - intros Heq [Hf [Hi He]]. rewrite !(H4 Hf Hi He) in Heq. discriminate Heq.
  - intros Hnot.
    destruct (blank_dec (users_field full_name e)) as [Hf | [n [Hf Hn]]];
      [|now rewrite !(H1 n Hf Hn)].
    destruct (blank_dec (users_field initials e)) as [Hi | [n [Hi Hn]]];
      [|now rewrite !(H2 n Hf Hi Hn)].
    destruct (blank_dec (users_field email e)) as [He | [n [He Hn]]];
      [|now rewrite !(H3 n Hf Hi He Hn)].
    destruct Hnot. auto.
Qed.

Lemma to_int32_range z : - 2 ^ 31 <= to_int32 z < 2 ^ 31.
Proof.
  unfold to_int32.
  pose proof (Z.mod_pos_bound (z + 2 ^ 31) (2 ^ 32) ltac:(lia)). lia.
Qed.

Lemma to_int32_small z : - 2 ^ 31 <= z < 2 ^ 31 -> to_int32 z = z.
Proof.
  intros H. unfold to_int32. rewrite Z.mod_small by lia. lia.
Qed.

Lemma charCode_range c : 0 <= charCode c <= 255.
Proof.
  unfold charCode. pose proof (nat_ascii_bounded c). lia.
Qed.

Lemma hash_step_bound h c :
  Z.abs (hash_step h c) <= Z.abs h + (2 ^ 31 + 255).
Proof.
  unfold hash_step, shl5.
  pose proof (to_int32_range (Z.shiftl (to_int32 h) 5)).
  pose proof (charCode_range c). lia.
Qed.

Lemma fold_hash_bound l : forall h,
  Z.abs (fold_left hash_step l h)
  <= Z.abs h + Z.of_nat (List.length l) * (2 ^ 31 + 255).
Proof.
  induction l as [|c l IH]; intros h; [simpl; lia|].
  cbn [fold_left]. specialize (IH (hash_step h c)).
  pose proof (hash_step_bound h c).
  replace (Z.of_nat (List.length (c :: l))) with (Z.of_nat (List.length l) + 1)
    by (simpl; lia).
  lia.
Qed.

Lemma length_list_ascii s :
  List.length (list_ascii_of_string s) = String.length s.
Proof. induction s; simpl; congruence. Qed.

(** X9. The hash behind the colour stays small: for an id of [n]
    characters its magnitude is at most [n * (2^31 + 255)], so for ids of
    up to 2^21 characters it is below 2^53, the range in which the number
    arithmetic of the loop is exact. *)
Theorem user_hash_bounded userId :
  Z.abs (hash_of userId)
    <= Z.of_nat (String.length userId) * (2 ^ 31 + 255) /\
  ((String.length userId <= 2 ^ 21)%nat -> Z.abs (hash_of userId) < 2 ^ 53).
Proof.
  assert (Hb : Z.abs (hash_of userId)
               <= Z.of_nat (String.length userId) * (2 ^ 31 + 255)).
  { unfold hash_of. pose proof (fold_hash_bound (list_ascii_of_string userId) 0) as H.
    rewrite length_list_ascii in H. simpl Z.abs in H. lia. }
  split; [exact Hb|].
  intros Hlen.
  assert (Z.of_nat (String.length userId) <= 2 ^ 21).
  { apply Nat2Z.inj_le in Hlen. rewrite Nat2Z.inj_pow in Hlen. exact Hlen. }
  nia.
Qed.

End WidgetFacts.

(* ===================================================================== *)
(** * Properties of sequences of channel operations *)
(* ===================================================================== *)

Section ChannelOpsFacts.
Import Realtime ChannelInv ChannelOps.

Lemma apply_op_ok w o : world_ok w -> world_ok (apply_op w o).
Proof.
  intros H. destruct o as [a i|pid cb|pid cb|pid|c st]; cbn [apply_op].
  - now apply broadcastFieldUpdate_ok.
  - now apply subscribeToFieldUpdates_ok.
  - now apply subscribeToCollaboration_ok.
  - now apply removeBroadcastChannel_ok.
  - now apply env_set_state_ok.
Qed.

Lemma run_ops_ok ops : forall w, world_ok w -> world_ok (run_ops ops w).
Proof.
  induction ops as [|o ops IH]; intros w H; [exact H|].
  cbn [run_ops fold_left]. apply IH. now apply apply_op_ok.
Qed.

(** X11. However the functions of the module are used, one call after
    another and with any state changes by the library in between, every
    entry of [broadcastChannels] refers to a channel object that exists,
    was handed out earlier, and is named [problem:{id}:updates] for the
    problem id it is cached under. *)
Theorem cached_channels_are_updates_channels ops problemId c :
  broadcastChannels (run_ops ops empty_world) !! problemId = Some c ->
  (c < next_ref (run_ops ops empty_world))%nat /\
  exists ch,
    channels (run_ops ops empty_world) !! c = Some ch /\
    topic ch = "problem:" ++ string_of_Z problemId ++ ":updates".
Proof.
  intros Hc. destruct (run_ops_ok ops empty_world empty_world_ok) as [Hwf Hn].
  destruct (Hn _ _ Hc) as (ch & Hch & Ht). split; [apply Hwf; eauto|].
  exists ch. split; [exact Hch|exact Ht].
Qed.

Lemma cached_channels_are_updates_channels_witness :
  exists ch,
    channels (run_ops [OpSubscribeToCollaboration 7 0;
                       OpSubscribeToFieldUpdates 7 1;
                       OpBroadcast args_a input_ok] empty_world) !! 1%nat
      = Some ch /\
    topic ch = "problem:" ++ string_of_Z 7 ++ ":updates".
Proof.
  refine (proj2 (cached_channels_are_updates_channels
                   [OpSubscribeToCollaboration 7 0;
                    OpSubscribeToFieldUpdates 7 1;
                    OpBroadcast args_a input_ok] 7 1%nat _)).
  reflexivity.
Defined.

(** ** Channel names *)

Lemma to_int_proper z : Z.to_int z <> Decimal.Pos Decimal.Nil /\
                        Z.to_int z <> Decimal.Neg Decimal.Nil.
Proof.
  destruct z as [|q|q]; simpl; split; try discriminate;
    intros [= H]; exact (DecimalPos.Unsigned.to_uint_nonnil q H).
Qed.

Lemma string_of_Z_inj i j : string_of_Z i = string_of_Z j -> i = j.
Proof.
  unfold string_of_Z. intros H.
  destruct (to_int_proper i) as [Hi1 Hi2], (to_int_proper j) as [Hj1 Hj2].
  pose proof (NilZero.isi (Z.to_int i) Hi1 Hi2) as Ei.
  pose proof (NilZero.isi (Z.to_int j) Hj1 Hj2) as Ej.
  rewrite H, Ej in Ei. injection Ei as Ei.
  rewrite <- (DecimalZ.of_to i), <- (DecimalZ.of_to j). now rewrite Ei.
Qed.

Lemma string_app_inv_tail a b t : a ++ t = b ++ t -> a = b.
Proof.
  intros H. apply (f_equal list_ascii_of_string) in H.
  rewrite !list_ascii_app in H. apply app_inv_tail in H.
  rewrite <- (string_of_list_ascii_of_string a),
          <- (string_of_list_ascii_of_string b). now rewrite H.
Qed.

(** X12. Distinct problems have distinct channels: the updates channel
    names of two problem ids are equal only when the ids are, and so are
    the change-notification channel names. *)
Theorem channel_names_injective i j :
  (updates_channel_name i = updates_channel_name j -> i = j) /\
  (collaboration_channel_name i = collaboration_channel_name j -> i = j).
Proof.
  unfold updates_channel_name, collaboration_channel_name. split; intros H;
    cbv [String.append] in H; fold String.append in H; injection H as H.
  - change (string_of_Z i ++ ":updates" = string_of_Z j ++ ":updates") in H.
    apply string_app_inv_tail in H. now apply string_of_Z_inj.
  - change (string_of_Z i = string_of_Z j) in H. now apply string_of_Z_inj.
Qed.

(** ** Eviction *)


(** ** Sharing one channel *)

Lemma attachable_test st :
  attachable st <->
  state_is (Some st) "joined" || state_is (Some st) "subscribed"
    || state_is (Some st) "joining" = true.
Proof.
  unfold attachable. cbn [state_is].
  rewrite !orb_true_iff, !String.eqb_eq. tauto.
Qed.

Lemma attachable_usable st : attachable st -> usable st.
Proof. intros [-> | [-> | ->]]; split; discriminate. Qed.

(** What [subscribeToFieldUpdates] does when the cached channel can still
    be used: no channel is created, and the cached one is returned. *)
Lemma subscribe_on_usable w problemId onUpdate c ch :
  broadcastChannels w !! problemId = Some c ->
  channels w !! c = Some ch -> usable (state ch) ->
  let r := subscribeToFieldUpdates problemId onUpdate w in
  snd r = c /\
  broadcastChannels (fst r) = broadcastChannels w /\
  (exists tr, trace (fst r) = (trace w ++ tr)%list /\ created tr = [] /\
              (attachable (state ch) ->
               tr = [EvOn c (field_update_listener onUpdate)])) /\
  exists ch', channels (fst r) !! c = Some ch' /\
              listeners ch' = (listeners ch ++ [field_update_listener onUpdate])%list /\
              (attachable (state ch) -> state ch' = state ch).
Proof.
  intros Hc Hch Hu. unfold subscribeToFieldUpdates. rewrite Hc.
  cbn [channel_state]. rewrite Hch. cbn [fmap option_fmap option_map].
  destruct (state_is (Some (state ch)) "joined"
            || state_is (Some (state ch)) "subscribed"
            || state_is (Some (state ch)) "joining") eqn:Ea.
  - cbn [fst snd]. split; [reflexivity|]. split; [reflexivity|]. split.
    + eexists. split; [reflexivity|]. split; [reflexivity|]. reflexivity.
    + eexists. split; [cbn; now rewrite lookup_alter_eq, Hch|].
      split; reflexivity.
  - rewrite (usable_not_closed ch Hu). cbn [fst snd].
    split; [reflexivity|]. split; [reflexivity|]. split.
    + eexists. split; [cbn; now rewrite <- app_assoc|].
      split; [reflexivity|]. intros Ha. apply attachable_test in Ha. congruence.
    + eexists. split; [cbn; now rewrite !lookup_alter_eq, Hch|].
      split; [reflexivity|]. intros Ha. apply attachable_test in Ha. congruence.
Qed.

(** After [subscribeToFieldUpdates] the cached channel is one that a
    further call only attaches to, and it carries the listener. *)
Lemma subscribe_leaves_attachable w problemId onUpdate :
  world_ok w ->
  let r := subscribeToFieldUpdates problemId onUpdate w in
  broadcastChannels (fst r) !! problemId = Some (snd r) /\
  exists ch, channels (fst r) !! snd r = Some ch /\ attachable (state ch) /\
             In (field_update_listener onUpdate) (listeners ch).
Proof.
  intros Hok. unfold subscribeToFieldUpdates.
  assert (Hcreate : forall w0, world_ok w0 ->
    let r := (let '(w1, c') := supabase_channel (updates_channel_name problemId) w0 in
              let w2 := cache_set problemId c' w1 in
              (channel_subscribe c' (channel_on c' (field_update_listener onUpdate) w2), c')) in
    broadcastChannels (fst r) !! problemId = Some (snd r) /\
    exists ch, channels (fst r) !! snd r = Some ch /\ attachable (state ch) /\
               In (field_update_listener onUpdate) (listeners ch)).
  { intros w0 H0.
    destruct (create_cache_listen_ok problemId (field_update_listener onUpdate) w0 H0)
      as (_ & H2 & H3).
    split; [exact H2|]. eexists. split; [exact H3|].
    split; [right; now right|now left]. }
  destruct (broadcastChannels w !! problemId) as [c|] eqn:Hc.
  - destruct (proj2 Hok _ _ Hc) as (ch & Hch & Ht).
    cbn [channel_state]. rewrite Hch. cbn [fmap option_fmap option_map].
    destruct (state_is (Some (state ch)) "joined"
              || state_is (Some (state ch)) "subscribed"
              || state_is (Some (state ch)) "joining") eqn:Ea.
    + cbn [fst snd]. split; [exact Hc|].
      eexists. split; [cbn; now rewrite lookup_alter_eq, Hch|].
      split; [now apply attachable_test|]. cbn. apply in_or_app. right. now left.
    + destruct (state_is _ "closed" || state_is _ "errored").
      * apply Hcreate. apply cache_delete_ok, removeChannel_ok, Hok.
      * cbn [fst snd]. split; [exact Hc|].
        eexists. split; [cbn; now rewrite !lookup_alter_eq, Hch|].
        split; [right; now right|]. cbn. apply in_or_app. right. now left.
  - apply Hcreate, Hok.
Qed.



(** X15. The sender uses the receiver's channel: a [broadcastFieldUpdate]
    right after [subscribeToFieldUpdates] for the same problem creates no
    channel, leaves the cache as it is, and makes its one send on the
    channel the subscription returned. *)
Theorem broadcast_after_subscribe_reuses_channel w a i onUpdate :
  world_ok w ->
  let r := subscribeToFieldUpdates (a_problemId a) onUpdate w in
  let w2 := broadcastFieldUpdate (fst r) a i in
  broadcastChannels w2 = broadcastChannels (fst r) /\
  channels w2 = channels (fst r) /\
  exists tr, trace w2 = (trace (fst r) ++ tr)%list /\
             created tr = [] /\
             sends tr = [(snd r, field_update_message a i)].
Proof.
  intros Hok r w2.
  destruct (subscribe_leaves_attachable w (a_problemId a) onUpdate Hok)
    as (Hc & ch & Hch & Ha & _).
  fold r in Hc, Hch.
  assert (Hst : state_is (channel_state (fst r) (Some (snd r))) "closed"
                || state_is (channel_state (fst r) (Some (snd r))) "errored"
                = false).
  { cbn [channel_state]. rewrite Hch. cbn [fmap option_fmap option_map].
    apply usable_not_closed, attachable_usable, Ha. }
  subst w2.
  destruct (negb (state_is (channel_state (fst r) (Some (snd r))) "joined")
            && negb (state_is (channel_state (fst r) (Some (snd r))) "subscribed"))
    eqn:Hj.
  - rewrite (broadcast_when_joining _ a i _ Hc Hst Hj).
    cbn [broadcastChannels channels trace].
    split; [reflexivity|]. split; [reflexivity|].
    eexists. split; [reflexivity|].
    now rewrite created_app, sends_app, created_send_log, sends_send_log.
  - rewrite (broadcast_when_joined _ a i _ Hc Hst Hj).
    cbn [broadcastChannels channels trace].
    split; [reflexivity|]. split; [reflexivity|].
    eexists. split; [reflexivity|].
    now rewrite created_app, sends_app, created_send_log, sends_send_log.
Qed.

Lemma broadcast_after_subscribe_reuses_channel_witness :
  channels (broadcastFieldUpdate
              (fst (subscribeToFieldUpdates 7 1 empty_world)) args_a input_ok)
  = channels (fst (subscribeToFieldUpdates 7 1 empty_world)).
Proof.
  exact (proj1 (proj2 (broadcast_after_subscribe_reuses_channel empty_world
                         args_a input_ok 1 empty_world_ok))).
Defined.

(** After a call of [broadcastFieldUpdate] the channel it sent on is the
    cached one, and it is neither closed nor errored. *)
Lemma broadcast_leaves_usable w a i :
  world_ok w ->
  exists c ch tr,
    trace (broadcastFieldUpdate w a i) = (trace w ++ tr)%list /\
    sends tr = [(c, field_update_message a i)] /\
    broadcastChannels (broadcastFieldUpdate w a i) !! a_problemId a = Some c /\
    channels (broadcastFieldUpdate w a i) !! c = Some ch /\
    usable (state ch).
Proof.
  intros [Hwf Hn].
  destruct (broadcastChannels w !! a_problemId a) as [old|] eqn:Hc.
  - destruct (Hn _ _ Hc) as (ch & Hch & Ht).
    destruct (state_is (channel_state w (Some old)) "closed"
              || state_is (channel_state w (Some old)) "errored") eqn:Hst.
    + rewrite (broadcast_when_closed w a i old Hc Hst).
      cbn [trace channels broadcastChannels]. eexists _, _, _.
      split; [reflexivity|]. rewrite sends_app, sends_send_log.
      split; [reflexivity|]. split; [apply lookup_insert_eq|].
      rewrite lookup_alter_eq, lookup_insert_eq.
      split; [reflexivity|split; discriminate].
    + assert (Hu : usable (state ch)).
      { cbn [channel_state] in Hst. rewrite Hch in Hst.
        cbn [fmap option_fmap option_map state_is] in Hst.
        apply orb_false_iff in Hst as [H1 H2].
        split; now apply String.eqb_neq. }
      destruct (negb (state_is (channel_state w (Some old)) "joined")
                && negb (state_is (channel_state w (Some old)) "subscribed"))
        eqn:Hj.
      * rewrite (broadcast_when_joining w a i old Hc Hst Hj).
        cbn [trace channels broadcastChannels]. exists old, ch. eexists.
        split; [reflexivity|]. rewrite sends_app, sends_send_log.
        split; [reflexivity|]. auto.
      * rewrite (broadcast_when_joined w a i old Hc Hst Hj).
        cbn [trace channels broadcastChannels]. exists old, ch. eexists.
        split; [reflexivity|]. rewrite sends_app, sends_send_log.
        split; [reflexivity|]. auto.
  - rewrite (broadcast_when_absent w a i Hc).
    cbn [trace channels broadcastChannels]. eexists _, _, _.
    split; [reflexivity|]. rewrite sends_app, sends_send_log.
    split; [reflexivity|]. split; [apply lookup_insert_eq|].
    rewrite lookup_alter_eq, lookup_insert_eq.
    split; [reflexivity|split; discriminate].
Qed.

(** X16. The receiver uses the sender's channel: a
    [subscribeToFieldUpdates] right after a [broadcastFieldUpdate] for the
    same problem returns the channel the broadcast sent on, creates no
    channel and leaves the cache as it is. *)
Theorem subscribe_after_broadcast_reuses_channel w a i onUpdate :
  world_ok w ->
  let w1 := broadcastFieldUpdate w a i in
  let r := subscribeToFieldUpdates (a_problemId a) onUpdate w1 in
  (exists tr0, trace w1 = (trace w ++ tr0)%list /\
               sends tr0 = [(snd r, field_update_message a i)]) /\
  (exists tr, trace (fst r) = (trace w1 ++ tr)%list /\ created tr = []) /\
  broadcastChannels (fst r) = broadcastChannels w1 /\
  exists ch, channels (fst r) !! snd r = Some ch /\
             In (field_update_listener onUpdate) (listeners ch).
Proof.
  intros Hok w1 r.
  destruct (broadcast_leaves_usable w a i Hok)
    as (c & ch & tr0 & Ht0 & Hs0 & Hc & Hch & Hu).
  fold w1 in Ht0, Hc, Hch.
  destruct (subscribe_on_usable w1 (a_problemId a) onUpdate c ch Hc Hch Hu)
    as (E1 & E2 & (tr & Et & Ecr & _) & ch' & Hch' & Hl' & _).
  fold r in E1, E2, Et, Hch'.
  split; [exists tr0; rewrite E1; auto|]. split; [eauto|]. split; [exact E2|].
  exists ch'. rewrite E1. split; [exact Hch'|].
  rewrite Hl'. apply in_or_app. right. now left.
Qed.

Lemma subscribe_after_broadcast_reuses_channel_witness :
  broadcastChannels
    (fst (subscribeToFieldUpdates 7 1
            (broadcastFieldUpdate empty_world args_a input_ok)))
  = broadcastChannels (broadcastFieldUpdate empty_world args_a input_ok).
Proof.
  exact (proj1 (proj2 (proj2 (subscribe_after_broadcast_reuses_channel
                                empty_world args_a input_ok 1 empty_world_ok)))).
Defined.

(** X17. A send is fire-and-forget: what the send settles to changes
    neither the cache nor any channel nor the events up to the send; it
    only decides the log line that follows: none for status [ok], one
    warning for another status, one error for a rejection. There is never
    a second send. *)
Theorem send_outcome_only_logs w a nw o1 o2 :
  let w1 := broadcastFieldUpdate w a (mkInput nw o1) in
  let w2 := broadcastFieldUpdate w a (mkInput nw o2) in
  broadcastChannels w1 = broadcastChannels w2 /\
  channels w1 = channels w2 /\
  next_ref w1 = next_ref w2 /\
  (exists tr0,
     trace w1 = (trace w ++ tr0 ++ send_log (mkInput nw o1))%list /\
     trace w2 = (trace w ++ tr0 ++ send_log (mkInput nw o2))%list /\
     List.length (sends tr0) = 1%nat) /\
  send_log (mkInput nw (Status "ok")) = [] /\
  (forall s, s <> "ok" ->
     send_log (mkInput nw (Status s)) = [EvLog "warn" ("Broadcast status: " ++ s)]) /\
  (forall r, send_log (mkInput nw (Rejected r))
             = [EvLog "error" ("Error broadcasting field update: " ++ r)]).
Proof.
  intros w1 w2. subst w1 w2.
  assert (Hlog : send_log (mkInput nw (Status "ok")) = [] /\
    (forall s, s <> "ok" ->
       send_log (mkInput nw (Status s)) = [EvLog "warn" ("Broadcast status: " ++ s)]) /\
    (forall r, send_log (mkInput nw (Rejected r))
               = [EvLog "error" ("Error broadcasting field update: " ++ r)])).
  { split; [reflexivity|]. split; [|reflexivity].
    intros s Hs. unfold send_log. cbn [send_outcome].
    apply String.eqb_neq in Hs. now rewrite Hs. }
  destruct (broadcastChannels w !! a_problemId a) as [old|] eqn:Hc.
  - destruct (state_is (channel_state w (Some old)) "closed"
              || state_is (channel_state w (Some old)) "errored") eqn:Hst.
    + rewrite !(broadcast_when_closed w a _ old Hc Hst).
      cbn [trace channels broadcastChannels next_ref].
      repeat (split; [reflexivity|]). split; [|exact Hlog].
      eexists. split; [reflexivity|]. split; reflexivity.
    + destruct (negb (state_is (channel_state w (Some old)) "joined")
                && negb (state_is (channel_state w (Some old)) "subscribed"))
        eqn:Hj.
      * rewrite !(broadcast_when_joining w a _ old Hc Hst Hj).
        cbn [trace channels broadcastChannels next_ref].
        repeat (split; [reflexivity|]). split; [|exact Hlog].
        eexists. split; [reflexivity|]. split; reflexivity.
      * rewrite !(broadcast_when_joined w a _ old Hc Hst Hj).
        cbn [trace channels broadcastChannels next_ref].
        repeat (split; [reflexivity|]). split; [|exact Hlog].
        eexists. split; [reflexivity|]. split; reflexivity.
  - rewrite !(broadcast_when_absent w a _ Hc).
    cbn [trace channels broadcastChannels next_ref].
    repeat (split; [reflexivity|]). split; [|exact Hlog].
    eexists. split; [reflexivity|]. split; reflexivity.
Qed.


End ChannelOpsFacts.

(* ===================================================================== *)
(** * The user colour *)
(* ===================================================================== *)

Section ColourFacts.
Import Realtime Widget.

Lemma colour_of_nonempty s :
  s <> "" ->
  getUserColor (Some s) = "hsl(" ++ string_of_Z (hue_of s) ++ ", 70%, 50%)".
Proof. destruct s; [contradiction|reflexivity]. Qed.

Lemma colour_inj h k :
  "hsl(" ++ string_of_Z h ++ ", 70%, 50%)"
    = "hsl(" ++ string_of_Z k ++ ", 70%, 50%)" ->
  h = k.
Proof.
  intros H. cbv [String.append] in H. fold String.append in H.
  injection H as H. apply string_app_inv_tail in H.
  now apply string_of_Z_inj.
Qed.

(** X10. [getUserColor] answers black exactly for a missing or empty id.
    For any other id the hue is the remainder of the hash by 360 that
    truncates toward zero: [hash = 360 * q + hue] with [q] the truncated
    quotient, [hue] strictly between -360 and 360 and with the sign of
    the hash. So the hue of a non-negative hash is not negative, and the
    hue of a negative hash is negative, except at the multiples of 360,
    where it is 0 (it is in both cases the hue of the opposite hash,
    negated). The colour is [hsl(hue, 70%, 50%)] with the hue written in
    decimal, so two such ids get the same colour exactly when their hues
    are equal. The id [user-123] has a negative hash and gets
    [hsl(-72, 70%, 50%)]; the id [u1] gets [hsl(76, 70%, 50%)]. *)
Theorem user_colour_follows_hash_sign :
  (forall userId,
     getUserColor userId = "#000000" <-> userId = None \/ userId = Some "") /\
  (forall s,
     hash_of s = 360 * Z.quot (hash_of s) 360 + hue_of s /\
     -360 < hue_of s < 360 /\
     (0 <= hash_of s -> 0 <= hue_of s) /\
     (hash_of s <= 0 -> hue_of s <= 0) /\
     (hash_of s < 0 -> ~ (360 | hash_of s) -> hue_of s < 0) /\
     ((360 | hash_of s) <-> hue_of s = 0) /\
     hue_of s = - Z.rem (- hash_of s) 360) /\
  (forall s t, s <> "" -> t <> "" ->
     (getUserColor (Some s) = getUserColor (Some t) <-> hue_of s = hue_of t)) /\
  (hash_of "user-123" = -267697872 /\
   getUserColor (Some "user-123") = "hsl(-72, 70%, 50%)") /\
  (hash_of "u1" = 3676 /\ getUserColor (Some "u1") = "hsl(76, 70%, 50%)").
Proof.
  split; [|split; [|split; [|split]]].
  - intros userId. destruct userId as [[|c s]|]; cbn [getUserColor].
    + split; auto.
    + split.
      * intros H. cbv [String.append] in H. discriminate H.
      * intros [H|H]; discriminate H.
    + split; auto.
  - intros s. unfold hue_of.
    pose proof (Z.quot_rem' (hash_of s) 360) as Hqr.
    pose proof (Z.rem_bound_abs (hash_of s) 360 ltac:(lia)) as Hb.
    assert (Hdiv : (360 | hash_of s) <-> Z.rem (hash_of s) 360 = 0).
    { split.
      - intros [k Hk]. rewrite Hk. apply Z.rem_mul. lia.
      - intros H0. exists (Z.quot (hash_of s) 360). lia. }
    assert (Hnn : 0 <= hash_of s -> 0 <= Z.rem (hash_of s) 360)
      by (intros H; apply Z.rem_nonneg; lia).
    assert (Hnp : hash_of s <= 0 -> Z.rem (hash_of s) 360 <= 0)
      by (intros H; apply Z.rem_nonpos; lia).
    split; [exact Hqr|]. split; [lia|]. split; [exact Hnn|].
    split; [exact Hnp|]. split.
    { intros Hneg Hnd.
      assert (Z.rem (hash_of s) 360 <> 0) by (intros H0; now apply Hnd, Hdiv).
      specialize (Hnp ltac:(lia)). lia. }
    split; [exact Hdiv|].
    rewrite Z.rem_opp_l by lia. lia.
  - intros s t Hs Ht.
    rewrite (colour_of_nonempty s Hs), (colour_of_nonempty t Ht). split.
    + apply colour_inj.
    + now intros ->.
  - split; vm_compute; reflexivity.
  - split; vm_compute; reflexivity.
Qed.

End ColourFacts.

(* ===================================================================== *)
(** * Properties of the text lines and of the caret's movement *)
(* ===================================================================== *)

Section LinesFacts.
Import Cursor CursorSample Lines.
Local Open Scope Q_scope.

Lemma append_cons c a b : String c a ++ b = String c (a ++ b).
Proof. reflexivity. Qed.

Lemma split_lines_nonempty s : split_lines s <> [].
Proof.
  destruct s as [|c t]; simpl; [discriminate|].
  destruct (Ascii.eqb c newline); [discriminate|].
  destruct (split_lines t); discriminate.
Qed.

Lemma join_lines_cons l rest :
  rest <> [] -> join_lines (l :: rest) = l ++ String newline (join_lines rest).
Proof. destruct rest; [congruence|reflexivity]. Qed.

Lemma has_newline_app a b :
  has_newline (a ++ b) = has_newline a || has_newline b.
Proof.
  induction a as [|c a IH]; [reflexivity|].
  rewrite append_cons. cbn [has_newline]. rewrite IH. now rewrite orb_assoc.
Qed.

Lemma count_newlines_app a b :
  count_newlines (a ++ b) = (count_newlines a + count_newlines b)%Z.
Proof.
  induction a as [|c a IH]; [reflexivity|].
  rewrite append_cons. cbn [count_newlines]. rewrite IH. lia.
Qed.

Lemma count_newlines_nonneg s : (0 <= count_newlines s)%Z.
Proof.
  induction s as [|c s IH]; simpl; [lia|]. destruct (Ascii.eqb c newline); lia.
Qed.

(** X19. Splitting a text at its line feeds and joining the pieces with
    line feeds gives the text back; no piece holds a line feed; and there
    is one piece more than there are line feeds, so that the line index of
    the caret is the number of line feeds before it. *)
Theorem split_lines_round_trip s :
  join_lines (split_lines s) = s /\
  Forall (fun l => has_newline l = false) (split_lines s) /\
  lineNumber s = count_newlines s.
Proof.
  unfold lineNumber. induction s as [|c t (IH1 & IH2 & IH3)].
  - split; [reflexivity|]. split; [repeat constructor|reflexivity].
  - pose proof (split_lines_nonempty t) as Hne.
    cbn [split_lines count_newlines].
    destruct (Ascii.eqb c newline) eqn:E.
    + apply Ascii.eqb_eq in E. subst c. split; [|split].
      * rewrite join_lines_cons by exact Hne. now rewrite IH1.
      * constructor; [reflexivity|exact IH2].
      * cbn [List.length]. lia.
    + destruct (split_lines t) as [|h r]; [congruence|]. split; [|split].
      * rewrite <- IH1. destruct r as [|h' r']; [reflexivity|].
        rewrite !join_lines_cons by discriminate. apply append_cons.
      * apply List.Forall_cons_iff in IH2 as [Hh Hr].
        constructor; [cbn [has_newline]; now rewrite E, Hh|exact Hr].
      * cbn [List.length] in *. lia.
Qed.

Lemma last_cons_nonempty {A} (x : A) l d : l <> [] -> List.last (x :: l) d = List.last l d.
Proof. destruct l; [congruence|reflexivity]. Qed.

(** X20. The text measured for the horizontal position is what follows
    the last line feed before the caret: the text before the caret is some
    head followed by [currentLineText], which holds no line feed; the head
    holds all the line feeds, is empty on the first line and ends with a
    line feed on any other. *)
Theorem current_line_follows_last_newline s :
  exists head,
    s = head ++ currentLineText s /\
    has_newline (currentLineText s) = false /\
    count_newlines head = lineNumber s /\
    ((lineNumber s = 0)%Z -> head = "") /\
    ((0 < lineNumber s)%Z -> exists h, head = h ++ String newline "").
Proof.
  unfold lineNumber, currentLineText.
  induction s as [|c t (head & He & Hn & Hc & H0 & H1)].
  - exists "". repeat split; try reflexivity. simpl. lia.
  - pose proof (split_lines_nonempty t) as Hne.
    assert (Hlen : (1 <= List.length (split_lines t))%nat)
      by (destruct (split_lines t); [congruence|simpl; lia]).
    cbn [split_lines]. destruct (Ascii.eqb c newline) eqn:E.
    + apply Ascii.eqb_eq in E. subst c.
      rewrite last_cons_nonempty by exact Hne.
      exists (String newline head). split; [now rewrite append_cons, <- He|].
      split; [exact Hn|]. split; [|split].
      * cbn [count_newlines List.length]. rewrite Ascii.eqb_refl, Hc. lia.
      * cbn [List.length]. lia.
      * intros _. destruct (split_lines t) as [|h [|h' r]] eqn:Es; [congruence| |].
        { exists "". rewrite (H0 eq_refl). reflexivity. }
        { destruct H1 as [h1 H1]; [cbn [List.length]; lia|].
          exists (String newline h1). now rewrite H1. }
    + destruct (split_lines t) as [|h r] eqn:Es; [congruence|].
      destruct r as [|h' r'].
      * cbn [List.last List.length] in *. rewrite (H0 eq_refl) in He.
        change ("" ++ h) with h in He. subst t.
        exists "". split; [reflexivity|]. split; [|split; [reflexivity|split]].
        { cbn [has_newline]. now rewrite E, Hn. }
        { reflexivity. }
        { lia. }
      * rewrite last_cons_nonempty by discriminate.
        rewrite last_cons_nonempty in He, Hn by discriminate.
        exists (String c head). split; [now rewrite append_cons, <- He|].
        split; [exact Hn|]. split; [|split].
        { cbn [count_newlines]. rewrite E, Hc. cbn [List.length]. lia. }
        { cbn [List.length]. lia. }
        { intros _. destruct H1 as [h1 H1]; [cbn [List.length]; lia|].
          exists (String c h1). now rewrite H1. }
Qed.

(** ** The caret moves with the offset, the scroll position and the box *)

Lemma count_newlines_prefix s : forall n m,
  (n <= m)%nat ->
  (count_newlines (String.substring 0 n s)
   <= count_newlines (String.substring 0 m s))%Z.
Proof.
  induction s as [|c s IH]; intros n m Hnm.
  - destruct n, m; simpl; lia.
  - destruct n as [|n]; destruct m as [|m]; try lia.
    + cbn [String.substring count_newlines].
      pose proof (count_newlines_nonneg (String.substring 0 m s)).
      destruct (Ascii.eqb c newline); lia.
    + cbn [String.substring count_newlines].
      specialize (IH n m ltac:(lia)). lia.
Qed.

Lemma clamp_monotone x y lo hi : x <= y -> clamp x lo hi <= clamp y lo hi.
Proof.
  intros H. unfold clamp.
  destruct (Q.max_spec x lo) as [[A1 A2]|[A1 A2]];
    destruct (Q.max_spec y lo) as [[B1 B2]|[B1 B2]];
    destruct (Q.min_spec (Qmax x lo) hi) as [[C1 C2]|[C1 C2]];
    destruct (Q.min_spec (Qmax y lo) hi) as [[D1 D2]|[D1 D2]];
    lra.
Qed.

Lemma clamp_shift x lo hi x' lo' hi' d :
  x' == x - d -> lo' == lo - d -> hi' == hi - d ->
  clamp x' lo' hi' == clamp x lo hi - d.
Proof.
  intros Hx Hlo Hhi. unfold clamp.
  destruct (Q.max_spec x lo) as [[A1 A2]|[A1 A2]];
    destruct (Q.max_spec x' lo') as [[B1 B2]|[B1 B2]];
    destruct (Q.min_spec (Qmax x lo) hi) as [[C1 C2]|[C1 C2]];
    destruct (Q.min_spec (Qmax x' lo') hi') as [[D1 D2]|[D1 D2]];
    lra.
Qed.

Lemma clamp_shift_up x lo hi x' lo' hi' d :
  x' == x + d -> lo' == lo + d -> hi' == hi + d ->
  clamp x' lo' hi' == clamp x lo hi + d.
Proof.
  intros Hx Hlo Hhi. unfold clamp.
  destruct (Q.max_spec x lo) as [[A1 A2]|[A1 A2]];
    destruct (Q.max_spec x' lo') as [[B1 B2]|[B1 B2]];
    destruct (Q.min_spec (Qmax x lo) hi) as [[C1 C2]|[C1 C2]];
    destruct (Q.min_spec (Qmax x' lo') hi') as [[D1 D2]|[D1 D2]];
    lra.
Qed.

(** X21. The caret never moves up when the offset grows: for a line height
    that is not negative, a greater offset into the same text gives a line
    index and a top that are at least as great; the line index is never
    negative and never more than the number of line feeds of the text. *)
Theorem caret_descends_with_offset text cp cp' box :
  (cp <= cp')%nat ->
  0 <= line_height (style box) ->
  let tb := substring0 (cursorPos (Z.of_nat cp) text) text in
  let tb' := substring0 (cursorPos (Z.of_nat cp') text) text in
  (0 <= lineNumber tb <= lineNumber tb')%Z /\
  (lineNumber tb' <= count_newlines text)%Z /\
  p_top (project text cp box) <= p_top (project text cp' box).
Proof.
  intros Hcp Hlh tb tb'.
  assert (Hpos : forall n, substring0 (cursorPos (Z.of_nat n) text) text
                 = String.substring 0 (Nat.min n (String.length text)) text).
  { intros n. unfold substring0, cursorPos, strlen. rewrite int_or0_id.
    f_equal. lia. }
  assert (Hln : (0 <= lineNumber tb <= lineNumber tb')%Z /\
                (lineNumber tb' <= count_newlines text)%Z).
  { subst tb tb'. rewrite !Hpos.
    rewrite !(proj2 (proj2 (split_lines_round_trip _))).
    split; [split|].
    - apply count_newlines_nonneg.
    - apply count_newlines_prefix. lia.
    - pose proof (count_newlines_prefix text
                    (Nat.min cp' (String.length text)) (String.length text)
                    ltac:(lia)) as H.
      rewrite (substring0_all (String.length text) text) in H by lia.
      exact H. }
  destruct Hln as [Hl1 Hl2]. split; [exact Hl1|]. split; [exact Hl2|].
  destruct text as [|c t].
  - unfold project, updateCursorPosition. cbn [value with_text].
    assert (E : forall n, cursorPos (Z.of_nat n) "" = 0%Z).
    { intros n. unfold cursorPos, strlen. rewrite int_or0_id. simpl. lia. }
    rewrite !E. apply Qle_refl.
  - rewrite !project_nonempty by discriminate. cbn [p_top].
    apply clamp_monotone. unfold raw_top.
    assert (H : inject_Z (lineNumber tb) * line_height (style box)
                <= inject_Z (lineNumber tb') * line_height (style box)).
    { apply Qmult_le_compat_r; [|exact Hlh]. rewrite <- Zle_Qle. apply Hl1. }
    subst tb tb'. cbn [with_text style]. lra.
Qed.

Lemma caret_descends_with_offset_witness :
  p_top (project two_lines 1 roomy_box) <= p_top (project two_lines 4 roomy_box).
Proof.
  refine (proj2 (proj2 (caret_descends_with_offset two_lines 1 4 roomy_box _ _))).
  - lia.
  - vm_compute. discriminate.
Defined.

(** X22. The caret moves with the text: scrolling the field further by
    [dy] and [dx] moves the projected position by [-dy] and [-dx], and
    moving the field on the screen by [dy] and [dx] moves it by [dy] and
    [dx], clamping included, for every text and offset. *)
Theorem caret_follows_scroll_and_box text cp box dy dx :
  p_top (project text cp (scrolled dy dx box))
    == p_top (project text cp box) - dy /\
  p_left (project text cp (scrolled dy dx box))
    == p_left (project text cp box) - dx /\
  p_top (project text cp (moved dy dx box))
    == p_top (project text cp box) + dy /\
  p_left (project text cp (moved dy dx box))
    == p_left (project text cp box) + dx.
Proof.
  pose proof (num_or0_eq (scrollTop box)) as E1.
  pose proof (num_or0_eq (scrollLeft box)) as E2.
  pose proof (num_or0_eq (scrollTop box + dy)) as E3.
  pose proof (num_or0_eq (scrollLeft box + dx)) as E4.
  destruct text as [|c t].
  - unfold project, updateCursorPosition.
    cbn [value with_text scrolled moved rect style scrollTop scrollLeft top left].
    assert (E : cursorPos (Z.of_nat cp) "" = 0%Z).
    { unfold cursorPos, strlen. rewrite int_or0_id. simpl. lia. }
    rewrite E. change (strlen "" =? 0)%Z with true.
    cbn [Z.eqb andb p_top p_left]. repeat split; lra.
  - rewrite !project_nonempty by discriminate. cbn [p_top p_left].
    repeat split.
    + apply clamp_shift; unfold raw_top, minTop, maxTop;
        cbn [with_text scrolled rect style scrollTop top height]; lra.
    + apply clamp_shift; unfold raw_left, minLeft, maxLeft;
        cbn [with_text scrolled rect style scrollLeft left width offsetWidth_pre];
        lra.
    + apply clamp_shift_up; unfold raw_top, minTop, maxTop;
        cbn [with_text moved rect style scrollTop top height]; lra.
    + apply clamp_shift_up; unfold raw_left, minLeft, maxLeft;
        cbn [with_text moved rect style scrollLeft left width offsetWidth_pre];
        lra.
Qed.

(** X23. Inside the box the clamp changes nothing: when the field shows
    some text and the computed position lies within the clamping ranges,
    the result is top = boxTop + paddingTop + lineIndex * lineHeight + 2 -
    scrollTop and left = boxLeft + paddingLeft + width of the current line
    - scrollLeft. *)
Theorem caret_position_inside_box text cp box :
  text <> "" ->
  let tb := substring0 (cursorPos (Z.of_nat cp) text) text in
  let y := top (rect box) + float_or (paddingTop (style box)) 0
           + inject_Z (lineNumber tb) * line_height (style box) + 2
           - scrollTop box in
  let x := left (rect box) + float_or (paddingLeft (style box)) 0
           + inject_Z (offsetWidth_pre box (currentLineText tb))
           - scrollLeft box in
  top (rect box) - scrollTop box <= y ->
  y <= top (rect box) + height (rect box) - scrollTop box
       - line_height (style box) ->
  left (rect box) - scrollLeft box <= x ->
  x <= left (rect box) + width (rect box) - scrollLeft box ->
  p_top (project text cp box) == y /\ p_left (project text cp box) == x.
Proof.
  intros Hne tb y x Hy1 Hy2 Hx1 Hx2. rewrite project_nonempty by exact Hne.
  cbn [p_top p_left]. fold tb.
  pose proof (num_or0_eq (scrollTop box)) as E1.
  pose proof (num_or0_eq (scrollLeft box)) as E2.
  assert (Ey : raw_top (with_text text box) tb == y).
  { unfold raw_top, y. cbn [with_text rect style scrollTop]. lra. }
  assert (Ex : raw_left (with_text text box) tb == x).
  { unfold raw_left, x. cbn [with_text rect style scrollLeft offsetWidth_pre]. lra. }
  split.
  - rewrite <- Ey. apply clamp_inside. rewrite Ey.
    unfold minTop, maxTop. cbn [with_text rect style scrollTop]. lra.
  - rewrite <- Ex. apply clamp_inside. rewrite Ex.
    unfold minLeft, maxLeft. cbn [with_text rect style scrollLeft]. lra.
Qed.

Lemma caret_position_inside_box_witness :
  p_top (project two_lines 4 roomy_box) == 32 /\
  p_left (project two_lines 4 roomy_box) == 12.
Proof.
  destruct (caret_position_inside_box two_lines 4 roomy_box) as [H1 H2].
  - discriminate.
  - vm_compute. discriminate.
  - vm_compute. discriminate.
  - vm_compute. discriminate.
  - vm_compute. discriminate.
  - split; [rewrite H1|rewrite H2]; reflexivity.
Defined.

(** X24. When the field shows some text, the caret is never put past the
    upper bounds, whatever the box, even one that is lower than a line or
    has the text scrolled far away: top <= boxTop + boxHeight - scrollTop -
    lineHeight and left <= boxLeft + boxWidth - scrollLeft. *)
Theorem caret_never_past_upper_bounds text cp box :
  text <> "" ->
  p_top (project text cp box)
    <= top (rect box) + height (rect box) - scrollTop box
       - line_height (style box) /\
  p_left (project text cp box)
    <= left (rect box) + width (rect box) - scrollLeft box.
Proof.
  intros Hne. rewrite project_nonempty by exact Hne. cbn [p_top p_left].
  pose proof (num_or0_eq (scrollTop box)) as E1.
  pose proof (num_or0_eq (scrollLeft box)) as E2.
  split.
  - eapply Qle_trans; [apply clamp_upper|].
    unfold maxTop. cbn [with_text rect style scrollTop]. lra.
  - eapply Qle_trans; [apply clamp_upper|].
    unfold maxLeft. cbn [with_text rect scrollLeft]. lra.
Qed.

Lemma caret_never_past_upper_bounds_witness :
  p_top (project two_lines 4 low_box)
    <= top (rect low_box) + height (rect low_box) - scrollTop low_box
       - line_height (style low_box).
Proof.
  refine (proj1 (caret_never_past_upper_bounds two_lines 4 low_box _)).
  discriminate.
Defined.

End LinesFacts.

(* ===================================================================== *)
(** * Properties of overlapping calls *)
(* ===================================================================== *)

Section SharedClientFacts.
Import Realtime ChannelInv SharedClient.













End SharedClientFacts.
